(** * deepInfra_TEXT: streaming chat-completion client

    A shallow embedding of [BRAIN/AI/TEXT/STREAM/deepInfra_TEXT.py]:
    [generate], [_stream_response] and [_get_full_response], together with
    the library calls they rest on ([re.sub], [re.split], [str.strip],
    [json.loads], subscripting of decoded JSON values, [requests.post]).

    Conventions of the embedding.
    - A Python [str] is a list of Unicode code points ([pystr]).
    - A Python exception is a constructor of [exn]; a call that may raise
      returns an [outcome].
    - A generator is represented by what a consumer that drives it to
      exhaustion observes: the values it yields, in order, and how it
      finishes ([gen_trace]).
    - The network and the interpreter's Unicode database are not part of
      the repository; they are the two variables of section [Client].
    - A response delivers its lines as [str] values and its line iterator
      runs to its end.
    - [feed], [stream_lines], [response_json] and the functions built on
      them describe a run in which the console takes every text written
      to it and the decoder stays within the limits of the interpreter.
      The last part of section [Client] lifts both assumptions: the
      console, the limits and the read of [response.text] after a
      stream become variables of their own, and the definitions whose
      names end in [_env] are the same code under them.

    Code points that appear as numbers below: 9 tab, 10 line feed,
    13 carriage return, 32 space, 34 double quote, 39 apostrophe, 43 plus,
    44 comma, 45 minus, 46 dot, 47 slash, 48 to 57 the digits, 58 colon,
    63 question mark, 65 to 90 [A] to [Z], 69 [E], 91 and 93 the square
    brackets, 92 backslash, 95 underscore, 97 to 122 [a] to [z], 101 [e],
    117 [u], 123 and 125 the braces. *)

From Stdlib Require Import Ascii String.
From Stdlib Require Import NArith ZArith Bool Lia Floats List.
Import ListNotations.
Set Warnings "-register-all".

Local Open Scope N_scope.
Local Open Scope list_scope.

(** ** Text *)

Definition pystr : Type := list N.

(** [str "abc"] is the Python literal ['abc']. *)
Definition str (s : string) : pystr :=
  map N_of_ascii (list_ascii_of_string s).

(** [qstr] reads an apostrophe as the double quote character, so that
    JSON text can be written down: [qstr "{'a':1}"] is [{"a":1}]. *)
Definition qstr (s : string) : pystr :=
  map (fun c => if c =? 39 then 34 else c) (str s).

Fixpoint pystr_eqb (a b : pystr) : bool :=
  match a, b with
  | [], [] => true
  | x :: a', y :: b' => (x =? y) && pystr_eqb a' b'
  | _, _ => false
  end.

Definition nonempty (s : pystr) : bool :=
  match s with [] => false | _ :: _ => true end.

Fixpoint starts_with (p s : pystr) : bool :=
  match p, s with
  | [], _ => true
  | _ :: _, [] => false
  | a :: p', b :: s' => (a =? b) && starts_with p' s'
  end.

(** [sub in s] for strings. *)
Fixpoint contains (sub s : pystr) : bool :=
  starts_with sub s ||
  match s with
  | [] => false
  | _ :: s' => contains sub s'
  end.

Fixpoint drop_while (f : N -> bool) (s : pystr) : pystr :=
  match s with
  | [] => []
  | c :: s' => if f c then drop_while f s' else s
  end.

Fixpoint take_while (f : N -> bool) (s : pystr) : pystr :=
  match s with
  | [] => []
  | c :: s' => if f c then c :: take_while f s' else []
  end.

(** Unicode whitespace, the class behind both [str.strip()] and the
    pattern [\s] on [str] subjects. *)
Definition is_space (c : N) : bool :=
  ((9 <=? c) && (c <=? 13)) || ((28 <=? c) && (c <=? 32)) ||
  (c =? 133) || (c =? 160) || (c =? 5760) ||
  ((8192 <=? c) && (c <=? 8202)) || (c =? 8232) || (c =? 8233) ||
  (c =? 8239) || (c =? 8287) || (c =? 12288).

Definition is_upper_AZ (c : N) : bool := (65 <=? c) && (c <=? 90).
Definition is_lower_az (c : N) : bool := (97 <=? c) && (c <=? 122).
Definition is_digit (c : N) : bool := (48 <=? c) && (c <=? 57).

(** [s.strip()] *)
Definition lstrip (s : pystr) : pystr := drop_while is_space s.
Definition rstrip (s : pystr) : pystr := rev (drop_while is_space (rev s)).
Definition strip (s : pystr) : pystr := rstrip (lstrip s).

(** [re.sub(pat, "", s)] for a literal, non-empty [pat]: the leftmost
    non-overlapping occurrences are deleted in one left-to-right pass.
    [skip] counts the characters of the current occurrence still to be
    dropped. *)
Fixpoint delete_occurrences (pat : pystr) (skip : nat) (s : pystr) : pystr :=
  match s with
  | [] => []
  | c :: s' =>
      match skip with
      | S k => delete_occurrences pat k s'
      | O =>
          if starts_with pat s
          then delete_occurrences pat (pred (length pat)) s'
          else c :: delete_occurrences pat 0 s'
      end
  end.

Definition re_sub_delete (pat s : pystr) : pystr :=
  delete_occurrences pat 0 s.

(** ** Decoded JSON values, which double as the Python values the client
    handles ([JNull] is [None]). *)

Inductive json : Type :=
| JNull
| JBool (b : bool)
| JNum (lexeme : pystr)
| JStr (s : pystr)
| JArr (items : list json)
| JObj (members : list (pystr * json)).

Inductive exn : Type :=
| ConnectionError          (* requests.exceptions.ConnectionError *)
| Timeout                  (* requests.exceptions.Timeout *)
| HTTPError                (* requests.exceptions.HTTPError *)
| RequestsJSONDecodeError  (* requests.exceptions.JSONDecodeError *)
| JSONDecodeError          (* json.JSONDecodeError *)
| KeyError
| IndexError
| TypeError
| UnboundLocalError
| RecursionError
| ValueError               (* a [ValueError] that is no decode error *)
| UnicodeEncodeError
| OSError
| RuntimeError.

(** [isinstance(e, requests.exceptions.RequestException)] *)
Definition is_RequestException (e : exn) : bool :=
  match e with
  | ConnectionError | Timeout | HTTPError | RequestsJSONDecodeError => true
  | _ => false
  end.

(** [isinstance(e, json.JSONDecodeError)]; the decode error of
    [Response.json()] derives from it as well. *)
Definition is_JSONDecodeError (e : exn) : bool :=
  match e with
  | JSONDecodeError | RequestsJSONDecodeError => true
  | _ => false
  end.

Definition is_KeyError (e : exn) : bool :=
  match e with KeyError => true | _ => false end.

Inductive outcome (A : Type) : Type :=
| Returned (a : A)
| Raised (e : exn).
Arguments Returned {A} a.
Arguments Raised {A} e.

Definition bind {A B : Type} (o : outcome A) (k : A -> outcome B) : outcome B :=
  match o with
  | Returned a => k a
  | Raised e => Raised e
  end.

Notation "x <- c ;; k" := (bind c (fun x => k))
  (at level 61, c at next level, right associativity).

(** [d[key]] on a dict built by [json.loads]: among members with the same
    name the last one is the one the dict holds. *)
Fixpoint dict_get (key : pystr) (members : list (pystr * json)) : option json :=
  match members with
  | [] => None
  | (k, v) :: rest =>
      match dict_get key rest with
      | Some later => Some later
      | None => if pystr_eqb k key then Some v else None
      end
  end.

(** [v[key]] for a string [key]. *)
Definition getitem_key (v : json) (key : pystr) : outcome json :=
  match v with
  | JObj members =>
      match dict_get key members with
      | Some x => Returned x
      | None => Raised KeyError
      end
  | _ => Raised TypeError
  end.

(** [v[i]] for a non-negative integer [i]. The keys of a decoded object
    are strings, so an integer is never among them. *)
Definition getitem_index (v : json) (i : nat) : outcome json :=
  match v with
  | JArr items =>
      match nth_error items i with
      | Some x => Returned x
      | None => Raised IndexError
      end
  | JStr s =>
      match nth_error s i with
      | Some c => Returned (JStr [c])
      | None => Raised IndexError
      end
  | JObj _ => Raised KeyError
  | _ => Raised TypeError
  end.

(** ** [json.loads]

    The decoder of the standard library (strict mode, default hooks):
    leading and trailing blanks are skipped, exactly one value is read,
    anything left over is an error. [None] stands for [JSONDecodeError].
    Numbers are kept as their lexemes; the client never computes with one. *)

Definition is_json_ws (c : N) : bool :=
  (c =? 32) || (c =? 9) || (c =? 10) || (c =? 13).

Definition skip_ws (s : pystr) : pystr := drop_while is_json_ws s.

Definition hex_value (c : N) : option N :=
  if is_digit c then Some (c - 48)
  else if (97 <=? c) && (c <=? 102) then Some (c - 87)
  else if (65 <=? c) && (c <=? 70) then Some (c - 55)
  else None.

Definition hex4 (a b c d : N) : option N :=
  match hex_value a, hex_value b, hex_value c, hex_value d with
  | Some x, Some y, Some z, Some w => Some (((x * 16 + y) * 16 + z) * 16 + w)
  | _, _, _, _ => None
  end.

Definition is_high_surrogate (u : N) : bool := (55296 <=? u) && (u <=? 56319).
Definition is_low_surrogate (u : N) : bool := (56320 <=? u) && (u <=? 57343).

Definition join_surrogates (hi lo : N) : N :=
  65536 + ((hi - 55296) * 1024 + (lo - 56320)).

(** The character a one-letter escape stands for. *)
Definition simple_escape (e : N) : option N :=
  if e =? 34 then Some 34          (* quote *)
  else if e =? 92 then Some 92     (* backslash *)
  else if e =? 47 then Some 47     (* slash *)
  else if e =? 98 then Some 8      (* b: backspace *)
  else if e =? 102 then Some 12    (* f: form feed *)
  else if e =? 110 then Some 10    (* n: line feed *)
  else if e =? 114 then Some 13    (* r: carriage return *)
  else if e =? 116 then Some 9     (* t: tab *)
  else None.

(** The body of a string, after its opening quote: the decoded text and
    what follows the closing quote. [acc] holds the text read so far,
    last character first. *)
Fixpoint scan_string (s : pystr) (acc : pystr) {struct s} : option (pystr * pystr) :=
  match s with
  | [] => None
  | c :: r =>
      if c =? 34 then Some (rev acc, r)
      else if c =? 92 then
        match r with
        | [] => None
        | e :: r1 =>
            if e =? 117 then
              match r1 with
              | h1 :: h2 :: h3 :: h4 :: r2 =>
                  match hex4 h1 h2 h3 h4 with
                  | None => None
                  | Some uni =>
                      if is_high_surrogate uni then
                        match r2 with
                        | b :: u :: g1 :: g2 :: g3 :: g4 :: r3 =>
                            if (b =? 92) && (u =? 117) then
                              match hex4 g1 g2 g3 g4 with
                              | None => None
                              | Some uni2 =>
                                  if is_low_surrogate uni2
                                  then scan_string r3 (join_surrogates uni uni2 :: acc)
                                  else scan_string r2 (uni :: acc)
                              end
                            else scan_string r2 (uni :: acc)
                        | _ => scan_string r2 (uni :: acc)
                        end
                      else scan_string r2 (uni :: acc)
                  end
              | _ => None
              end
            else
              match simple_escape e with
              | Some ch => scan_string r1 (ch :: acc)
              | None => None
              end
        end
      else if c <? 32 then None
      else scan_string r (c :: acc)
  end.

(** A number: an optional minus sign; a zero, or a non-zero digit and any
    digits; optionally a dot and at least one digit; optionally [e] or [E],
    an optional sign and at least one digit. Each part gives what it read
    and what follows it. *)
Definition optional_char (p : N -> bool) (s : pystr) : pystr * pystr :=
  match s with
  | c :: r => if p c then ([c], r) else ([], s)
  | [] => ([], s)
  end.

Definition int_part (s : pystr) : option (pystr * pystr) :=
  match s with
  | d :: r =>
      if d =? 48 then Some ([d], r)
      else if (49 <=? d) && (d <=? 57)
      then Some (d :: take_while is_digit r, drop_while is_digit r)
      else None
  | [] => None
  end.

Definition frac_part (s : pystr) : pystr * pystr :=
  match s with
  | dot :: r =>
      if (dot =? 46) && nonempty (take_while is_digit r)
      then (dot :: take_while is_digit r, drop_while is_digit r)
      else ([], s)
  | [] => ([], s)
  end.

Definition exp_part (s : pystr) : pystr * pystr :=
  match s with
  | e :: r =>
      if (e =? 101) || (e =? 69) then
        let '(esign, r') := optional_char (fun g => (g =? 43) || (g =? 45)) r in
        if nonempty (take_while is_digit r')
        then (e :: esign ++ take_while is_digit r', drop_while is_digit r')
        else ([], s)
      else ([], s)
  | [] => ([], s)
  end.

(** The lexeme of a number and what follows it. *)
Definition scan_number (s : pystr) : option (pystr * pystr) :=
  let '(sign, s1) := optional_char (fun c => c =? 45) s in
  match int_part s1 with
  | None => None
  | Some (digits, s2) =>
      let '(frac, s3) := frac_part s2 in
      let '(expo, s4) := exp_part s3 in
      Some (sign ++ digits ++ frac ++ expo, s4)
  end.

(** A keyword [kw] at the head of [s], read as the value [v]. *)
Definition scan_keyword (kw : string) (v : json) (s : pystr) : option (json * pystr) :=
  if starts_with (str kw) s then Some (v, skipn (length (str kw)) s) else None.

Definition first_some {A : Type} (a b : option A) : option A :=
  match a with Some _ => a | None => b end.

(** One value at the head of [s]. Every nested call is made on a shorter
    text, and [fuel] bounds the nesting of calls. *)
Fixpoint parse_value (fuel : nat) (s : pystr) {struct fuel} : option (json * pystr) :=
  match fuel with
  | O => None
  | S f =>
      match s with
      | [] => None
      | c :: r =>
          if c =? 34 then
            match scan_string r [] with
            | Some (text, r') => Some (JStr text, r')
            | None => None
            end
          else if c =? 123 then
            match skip_ws r with
            | x :: r' => if x =? 125 then Some (JObj [], r')
                         else parse_members f (x :: r') []
            | [] => None
            end
          else if c =? 91 then
            match skip_ws r with
            | x :: r' => if x =? 93 then Some (JArr [], r')
                         else parse_elements f (x :: r') []
            | [] => None
            end
          else
            first_some (scan_keyword "null" JNull s)
            (first_some (scan_keyword "true" (JBool true) s)
            (first_some (scan_keyword "false" (JBool false) s)
            (first_some
               match scan_number s with
               | Some (lexeme, r') => Some (JNum lexeme, r')
               | None => None
               end
            (first_some (scan_keyword "NaN" (JNum (str "NaN")) s)
            (first_some (scan_keyword "Infinity" (JNum (str "Infinity")) s)
                        (scan_keyword "-Infinity" (JNum (str "-Infinity")) s))))))
      end
  end

with parse_elements (fuel : nat) (s : pystr) (acc : list json) {struct fuel}
  : option (json * pystr) :=
  match fuel with
  | O => None
  | S f =>
      match parse_value f s with
      | None => None
      | Some (v, r) =>
          match skip_ws r with
          | x :: r' =>
              if x =? 93 then Some (JArr (rev (v :: acc)), r')
              else if x =? 44 then parse_elements f (skip_ws r') (v :: acc)
              else None
          | [] => None
          end
      end
  end

with parse_members (fuel : nat) (s : pystr) (acc : list (pystr * json)) {struct fuel}
  : option (json * pystr) :=
  match fuel with
  | O => None
  | S f =>
      match s with
      | q :: r =>
          if q =? 34 then
            match scan_string r [] with
            | None => None
            | Some (key, r1) =>
                match skip_ws r1 with
                | colon :: r2 =>
                    if colon =? 58 then
                      match parse_value f (skip_ws r2) with
                      | None => None
                      | Some (v, r3) =>
                          match skip_ws r3 with
                          | x :: r4 =>
                              if x =? 125 then Some (JObj (rev ((key, v) :: acc)), r4)
                              else if x =? 44
                              then parse_members f (skip_ws r4) ((key, v) :: acc)
                              else None
                          | [] => None
                          end
                      end
                    else None
                | [] => None
                end
            end
          else None
      | [] => None
      end
  end.

Definition json_loads_fuel (fuel : nat) (s : pystr) : option json :=
  match parse_value fuel (skip_ws s) with
  | Some (v, r) => match skip_ws r with [] => Some v | _ :: _ => None end
  | None => None
  end.

(** Twice the length of the text is fuel enough ([json_loads_fuel_enough]
    below). *)
Definition json_loads (s : pystr) : option json :=
  json_loads_fuel (2 * length s) s.

(** ** Generators *)

(** What a consumer that exhausts a generator observes: the yielded
    values in order, and either the value carried by [StopIteration]
    ([None] when the body falls off its end) or the exception that
    escaped the body. *)
Record gen_trace : Type := {
  yielded : list pystr;
  finish : outcome json
}.

(** [yield from g] as the last statement of a body: the values of [g]
    are passed on, an exception of [g] escapes, and the value [g] returns
    is dropped, the body then falling off its end. *)
Definition yield_from (g : gen_trace) : gen_trace :=
  {| yielded := yielded g;
     finish := match finish g with
               | Returned _ => Returned JNull
               | Raised e => Raised e
               end |}.

(** [yield v] for each [v] of [vs], then the rest of the body. *)
Definition yield_then (vs : list pystr) (t : gen_trace) : gen_trace :=
  {| yielded := vs ++ yielded t; finish := finish t |}.

(** ** The transport *)

Record message : Type := {
  role : pystr;
  content : pystr
}.

(** The [payload] dict of [generate]. *)
Record payload : Type := {
  model : pystr;
  messages : list message;
  temperature : float;
  max_tokens : Z;
  stop : list pystr;
  stream : bool
}.

(** The arguments of one [requests.post] call. *)
Record request : Type := {
  url : pystr;
  headers : list (pystr * pystr);
  json_body : payload;
  stream_kw : bool   (* the [stream=] keyword of [requests.post] *)
}.

(** A [requests.Response], as far as the client reads it. *)
Record response : Type := {
  status_code : N;
  text : pystr;              (* [response.text] *)
  iter_lines : list pystr    (* [response.iter_lines(decode_unicode=True, ...)], run to its end *)
}.

Inductive post_result : Type :=
| PostOk (r : response)
| PostRaised (e : exn).

(** The state a call can observe or change: the caller's list object
    [conversation_history], and the requests put on the wire. *)
Record world : Type := {
  conversation_history : list message;
  sent : list request
}.

(** What calling a Python function hands back to the caller. *)
Inductive pyobject : Type :=
| PyValue (v : json)
| PyGenerator (body : world -> gen_trace * world).

(** The keyword arguments of [generate] other than the history, which
    lives in the [world]. *)
Record generate_args : Type := {
  arg_model : pystr;
  arg_system_prompt : pystr;
  arg_max_tokens : Z;
  arg_temperature : float;
  arg_stream : bool;
  arg_chunk_size : Z
}.

Definition api_url : pystr :=
  str "https://api.deepinfra.com/v1/openai/chat/completions".

Definition request_headers : list (pystr * pystr) :=
  [ (str "Accept", str "text/event-stream");
    (str "Accept-Encoding", str "gzip, deflate, br, zstd");
    (str "Accept-Language", str "en-US,en;q=0.9,hi;q=0.8");
    (str "Connection", str "keep-alive");
    (str "Content-Type", str "application/json");
    (str "Dnt", str "1");
    (str "Host", str "api.deepinfra.com");
    (str "Origin", str "https://deepinfra.com");
    (str "Referer", str "https://deepinfra.com/");
    (str "Sec-Ch-Ua",
     qstr "'Google Chrome';v='125', 'Chromium';v='125', 'Not.A/Brand';v='24'");
    (str "Sec-Ch-Ua-Mobile", str "?0");
    (str "Sec-Ch-Ua-Platform", qstr "'Windows'");
    (str "Sec-Fetch-Dest", str "empty");
    (str "Sec-Fetch-Mode", str "cors");
    (str "Sec-Fetch-Site", str "same-site");
    (str "User-Agent",
     str "Mozilla/5.0 (Windows NT 10.0; Win64; x64) AppleWebKit/537.36 (KHTML, like Gecko) Chrome/125.0.0.0 Safari/537.36");
    (str "X-Deepinfra-Source", str "web-page") ].

(** [response.raise_for_status()] raises [HTTPError] on a 4xx or 5xx status. *)
Definition raise_for_status (r : response) : outcome unit :=
  if (400 <=? status_code r) && (status_code r <? 600)
  then Raised HTTPError
  else Returned tt.

(** [response.json()]. Its decode error,
    [requests.exceptions.JSONDecodeError], is a [RequestException] and a
    [json.JSONDecodeError] at once. *)
Definition response_json (r : response) : outcome json :=
  match json_loads (text r) with
  | Some v => Returned v
  | None => Raised RequestsJSONDecodeError
  end.

(** ** The console and the limits of the interpreter *)

(** The calls of [print], by the line they stand on. *)
Inductive print_call : Type :=
| PrintChunk (data_chunk : pystr)   (* line 94: print(data_chunk, end=..., flush=True) *)
| PrintStreamError (e : exn)        (* line 108: print([Error:], e) *)
| PrintRequestError (e : exn)       (* line 118 *)
| PrintKeyError (e : exn).          (* line 126 *)

(** What stops [json.loads] short of reading a text to its end: nesting
    deeper than the recursion limit, or an integer with more digits than
    [int] converts. *)
Inductive limit_fault : Type :=
| TooDeep
| TooLong.

(** [RecursionError] and [ValueError]; neither is a
    [json.JSONDecodeError]. *)
Definition fault_exn (f : limit_fault) : exn :=
  match f with
  | TooDeep => RecursionError
  | TooLong => ValueError
  end.

(** [c] is a surrogate code point. *)
Definition is_surrogate (c : N) : bool := (55296 <=? c) && (c <=? 57343).

(** ** Scenario data *)

(** A console that encodes to UTF-8: a text with a surrogate in it
    cannot be written. *)
Definition utf8_console (call : print_call) : option exn :=
  match call with
  | PrintChunk data_chunk =>
      if existsb is_surrogate data_chunk then Some UnicodeEncodeError else None
  | _ => None
  end.

(** A response whose text is at hand whenever it is read. *)
Definition text_at_hand (r : response) : outcome pystr := Returned (text r).

(** The deepest nesting of brackets and braces [s] reaches, entered at
    [depth]; what stands inside strings is counted as well. *)
Fixpoint deepest_nesting (depth : nat) (s : pystr) : nat :=
  match s with
  | [] => 0
  | c :: s' =>
      if (c =? 91) || (c =? 123)
      then Nat.max (S depth) (deepest_nesting (S depth) s')
      else if (c =? 93) || (c =? 125)
      then deepest_nesting (pred depth) s'
      else deepest_nesting depth s'
  end.

(** The length of the longest run of digits in [s], after a run of
    length [run]. *)
Fixpoint longest_digit_run (run : nat) (s : pystr) : nat :=
  match s with
  | [] => run
  | c :: s' =>
      if is_digit c
      then longest_digit_run (S run) s'
      else Nat.max run (longest_digit_run 0 s')
  end.

(** The limits CPython starts with, for texts whose strings hold no
    brackets and whose numbers are integers: nesting deeper than 1000
    levels is too deep, an integer of more than 4300 digits too long. *)
Definition default_limits (s : pystr) : option limit_fault :=
  if (1000 <? deepest_nesting 0 s)%nat then Some TooDeep
  else if (4300 <? longest_digit_run 0 s)%nat then Some TooLong
  else None.

(** An array nested [depth] levels deep. *)
Definition nested_array (depth : nat) : pystr :=
  repeat 91 depth ++ repeat 93 depth.

(** The three lines of the streaming scenario. *)
Definition scenario_lines : list pystr :=
  [ qstr "data: {'choices':[{'delta':{'content':'Nice to '}}]}";
    qstr "data: {'choices':[{'delta':{'content':'meet you. '}}]}";
    str "data: [DONE]" ].

(** The body of the non-streaming scenario. *)
Definition hi_there_body : pystr :=
  qstr "{'choices':[{'message':{'content':'Hi there'}}]}".

(** A remote end that answers every request with status 200 and the
    given body and lines. *)
Definition server_answers (body : pystr) (lines : list pystr) : request -> post_result :=
  fun _ => PostOk {| status_code := 200; text := body; iter_lines := lines |}.

(** A remote end that cannot be reached. *)
Definition server_unreachable : request -> post_result :=
  fun _ => PostRaised ConnectionError.

(** [suffix] closes [s]. *)
Definition ends_with (suffix s : pystr) : bool :=
  starts_with (rev suffix) (rev s).

(** The call [generate(history, stream=False)] with the other arguments
    as given. *)
Definition without_stream (a : generate_args) : generate_args :=
  {| arg_model := arg_model a;
     arg_system_prompt := arg_system_prompt a;
     arg_max_tokens := arg_max_tokens a;
     arg_temperature := arg_temperature a;
     arg_stream := false;
     arg_chunk_size := arg_chunk_size a |}.

(** [segs] with one character of [seps] put back after each segment. *)
Fixpoint weave (segs : list pystr) (seps : pystr) : pystr :=
  match segs with
  | [] => []
  | seg :: segs' =>
      match seps with
      | w :: seps' => seg ++ w :: weave segs' seps'
      | [] => seg ++ weave segs' []
      end
  end.

(** The text without its whitespace. *)
Definition visible (s : pystr) : pystr :=
  filter (fun c => negb (is_space c)) s.

(** Exact reconstruction: the emitted sentences, each followed by one
    whitespace character, then what the final flush emitted, spell
    [input]. *)
Definition reconstructs_exactly (emitted flushed : list pystr) (input : pystr) : Prop :=
  exists seps,
    length seps = length emitted /\
    Forall (fun c => is_space c = true) seps /\
    weave emitted seps ++ concat flushed = input.

Section Client.

(** [Py_UNICODE_ISALNUM] on code points above 127, from the interpreter's
    Unicode database. *)
Variable unicode_alnum : N -> bool.

(** The remote end: what [requests.post] comes back with for a request. *)
Variable requests_post : request -> post_result.

(** ** The sentence boundary pattern *)

(** [\w] *)
Definition is_word (c : N) : bool :=
  if c <? 128
  then is_upper_AZ c || is_lower_az c || is_digit c || (c =? 95)
  else unicode_alnum c.

(** The three lookbehinds of
    [(?<!\b\w\.)(?<![A-Z][a-z]\.)(?<=\.|\?)\s]
    read the text before the candidate position; [before] is that text,
    nearest character first. *)

(** [(?<=\.|\?)] *)
Definition after_terminal (before : pystr) : bool :=
  match before with
  | p :: _ => (p =? 46) || (p =? 63)
  | [] => false
  end.

(** [\b\w\.] ends here: a dot, before it a word character, and before
    that the start of the text or a non-word character. *)
Definition after_lone_word_char (before : pystr) : bool :=
  match before with
  | d :: w :: rest =>
      (d =? 46) && is_word w &&
      match rest with
      | [] => true
      | x :: _ => negb (is_word x)
      end
  | _ => false
  end.

(** [[A-Z][a-z]\.] ends here. *)
Definition after_capitalised_pair (before : pystr) : bool :=
  match before with
  | d :: l :: u :: _ => (d =? 46) && is_lower_az l && is_upper_AZ u
  | _ => false
  end.

(** The pattern matches the character [c] that follows [before]. *)
Definition sentence_break (before : pystr) (c : N) : bool :=
  negb (after_lone_word_char before) &&
  negb (after_capitalised_pair before) &&
  after_terminal before &&
  is_space c.

(** [re.split] with that pattern, on the text that follows [before]: the
    pieces between successive matches. A match is one character wide, so
    every match ends a piece and is left out of it. *)
Fixpoint split_after (before s : pystr) : list pystr :=
  match s with
  | [] => [[]]
  | c :: s' =>
      if sentence_break before c
      then [] :: split_after (c :: before) s'
      else match split_after (c :: before) s' with
           | piece :: pieces => (c :: piece) :: pieces
           | [] => [[c]]
           end
  end.

Definition re_split_sentences (s : pystr) : list pystr := split_after [] s.

(** ** [_stream_response] *)

(** Lines 93 to 98, for a [str] [data_chunk]: the new buffer is split,
    all pieces but the last are yielded stripped, the last is kept. *)
Definition feed (partial_sentence data_chunk : pystr) : list pystr * pystr :=
  let sentences := re_split_sentences (partial_sentence ++ data_chunk) in
  (map strip (removelast sentences), last sentences []).

(** Lines 101 and 102. *)
Definition flush (partial_sentence : pystr) : list pystr :=
  if nonempty partial_sentence then [strip partial_sentence] else [].

(** [json_modified_value["choices"][0]["delta"]["content"]] *)
Definition delta_content (j : json) : outcome json :=
  choices <- getitem_key j (str "choices") ;;
  first <- getitem_index choices 0 ;;
  delta <- getitem_key first (str "delta") ;;
  getitem_key delta (str "content").

(** The [for] loop over the lines and the statements after it.
    A line that does not decode ends the loop through the handler of
    [json.JSONDecodeError] around it, and with it the generator. *)
Fixpoint stream_lines (lines : list pystr) (partial_sentence : pystr) : gen_trace :=
  match lines with
  | [] => {| yielded := flush partial_sentence; finish := Returned JNull |}
  | value :: rest =>
      let modified_value := re_sub_delete (str "data:") value in
      if nonempty modified_value && negb (contains (str "[DONE]") modified_value) then
        match json_loads modified_value with
        | None => {| yielded := []; finish := Returned JNull |}
        | Some json_modified_value =>
            match delta_content json_modified_value with
            | Returned (JStr data_chunk) =>
                let '(complete, partial') := feed partial_sentence data_chunk in
                yield_then complete (stream_lines rest partial')
            | Returned JNull => stream_lines rest partial_sentence
            | Returned _ => stream_lines rest partial_sentence
            | Raised _ => stream_lines rest partial_sentence
            end
        end
      else stream_lines rest partial_sentence
  end.

(** [requests.post(...)]: the request goes on the wire, the remote end
    answers. *)
Definition post (req : request) (w : world) : post_result * world :=
  (requests_post req,
   {| conversation_history := conversation_history w; sent := sent w ++ [req] |}).

(** [chunk_size] only sets how much the transport reads at a time. When
    [requests.post] itself raises, the name [response] is still unbound
    in the last handler, which reads [response.text]. *)
Definition _stream_response (api_url_ : pystr) (headers_ : list (pystr * pystr))
    (payload_ : payload) (chunk_size : Z) (w : world) : gen_trace * world :=
  let '(result, w1) :=
    post {| url := api_url_; headers := headers_;
            json_body := payload_; stream_kw := true |} w in
  match result with
  | PostOk response_ => (stream_lines (iter_lines response_) [], w1)
  | PostRaised e =>
      if is_JSONDecodeError e
      then ({| yielded := []; finish := Returned JNull |}, w1)
      else ({| yielded := []; finish := Raised UnboundLocalError |}, w1)
  end.

(** ** [_get_full_response] *)

(** [response.json()['choices'][0]['message']['content']] *)
Definition message_content (j : json) : outcome json :=
  choices <- getitem_key j (str "choices") ;;
  first <- getitem_index choices 0 ;;
  msg <- getitem_key first (str "message") ;;
  getitem_key msg (str "content").

(** The [except] clauses, tried in order on an exception [e] raised in
    the [try] block. [bound] is the value of the local [response], if the
    assignment to it was reached. *)
Definition full_response_handlers (bound : option response) (e : exn) : outcome json :=
  if is_RequestException e then
    match bound with
    | Some r => Returned (JStr (str "Response content: " ++ text r))
    | None => Raised UnboundLocalError
    end
  else if is_JSONDecodeError e then Returned JNull
  else if is_KeyError e then
    match bound with
    | Some r => Returned (JStr (str "Error parsing response: " ++ text r))
    | None => Raised UnboundLocalError
    end
  else Raised e.

Definition _get_full_response (api_url_ : pystr) (headers_ : list (pystr * pystr))
    (payload_ : payload) (w : world) : outcome json * world :=
  let '(result, w1) :=
    post {| url := api_url_; headers := headers_;
            json_body := payload_; stream_kw := false |} w in
  match result with
  | PostRaised e => (full_response_handlers None e, w1)
  | PostOk response_ =>
      let tried :=
        _ <- raise_for_status response_ ;;
        body <- response_json response_ ;;
        message_content body in
      match tried with
      | Returned v => (Returned v, w1)
      | Raised e => (full_response_handlers (Some response_) e, w1)
      end
  end.

(** ** [generate] *)

(** [conversation_history.insert(0, {"role": "system", "content": system_prompt})] *)
Definition insert_system_prompt (system_prompt : pystr) (w : world) : world :=
  {| conversation_history :=
       {| role := str "system"; content := system_prompt |} :: conversation_history w;
     sent := sent w |}.

(** The body contains [yield from], so a call builds a generator and runs
    nothing; the statements run when the generator is driven. The value of
    the [return] statement travels in [StopIteration]. *)
Definition generate (a : generate_args) : pyobject :=
  PyGenerator (fun w =>
    let w1 := insert_system_prompt (arg_system_prompt a) w in
    let payload_ :=
      {| model := arg_model a;
         messages := conversation_history w1;
         temperature := arg_temperature a;
         max_tokens := arg_max_tokens a;
         stop := [];
         stream := true |} in
    if arg_stream a
    then
      let '(g, w2) :=
        _stream_response api_url request_headers payload_ (arg_chunk_size a) w1 in
      (yield_from g, w2)
    else
      let '(result, w2) := _get_full_response api_url request_headers payload_ w1 in
      ({| yielded := []; finish := result |}, w2)).

(** ** The segmenter on its own, and notions the statements below use *)

(** The loop of [_stream_response] seen from the buffer: the chunks are
    fed one after the other; the result is what was yielded on the way
    and the buffer left at the end. *)
Fixpoint feed_all (partial_sentence : pystr) (chunks : list pystr)
  : list pystr * pystr :=
  match chunks with
  | [] => ([], partial_sentence)
  | data_chunk :: rest =>
      let '(complete, partial') := feed partial_sentence data_chunk in
      let '(later, final) := feed_all partial' rest in
      (complete ++ later, final)
  end.

(** The characters the matches of [split_after] consumed, in order. *)
Fixpoint split_seps (before s : pystr) : pystr :=
  match s with
  | [] => []
  | c :: s' =>
      if sentence_break before c
      then c :: split_seps (c :: before) s'
      else split_seps (c :: before) s'
  end.

(** A line the loop does nothing with: empty once the marker is deleted,
    or holding the sentinel. *)
Definition stream_end_line (value : pystr) : bool :=
  let modified_value := re_sub_delete (str "data:") value in
  negb (nonempty modified_value) || contains (str "[DONE]") modified_value.

(** A line that carries the text [data_chunk]. *)
Definition content_frame (value data_chunk : pystr) : Prop :=
  let modified_value := re_sub_delete (str "data:") value in
  nonempty modified_value = true /\
  contains (str "[DONE]") modified_value = false /\
  exists j, json_loads modified_value = Some j /\
            delta_content j = Returned (JStr data_chunk).


(** ** Further notions: how the split resumes, and what a sentence is *)

(** The whitespace code points above 127 are no alphanumerics; the
    Unicode database has this property. *)
Definition alnum_excludes_spaces : Prop :=
  forall c, is_space c = true -> unicode_alnum c = false.

(** The text before the piece [split_after] leaves last, when [s] had a
    match: the consumed character and what came before it. *)
Fixpoint last_break (before s : pystr) : option pystr :=
  match s with
  | [] => None
  | c :: s' =>
      match last_break (c :: before) s' with
      | Some k => Some k
      | None => if sentence_break before c then Some (c :: before) else None
      end
  end.

(** The text ends in a dot or a question mark. *)
Definition ends_sentence (s : pystr) : bool :=
  match rev s with
  | t :: _ => (t =? 46) || (t =? 63)
  | [] => false
  end.

(** Neither a dot nor a question mark. *)
Definition not_terminal (c : N) : bool := negb ((c =? 46) || (c =? 63)).

(** Driving to its end the generator a call of [generate] returns. *)
Definition run_generate (a : generate_args) (w : world) : gen_trace * world :=
  match generate a with
  | PyGenerator body => body w
  | PyValue v => ({| yielded := []; finish := Returned v |}, w)
  end.

(** One run per element of [calls], on the same history list. *)
Fixpoint run_calls (calls : list generate_args) (w : world) : world :=
  match calls with
  | [] => w
  | a :: rest => run_calls rest (snd (run_generate a w))
  end.

Definition system_message (a : generate_args) : message :=
  {| role := str "system"; content := arg_system_prompt a |}.

(** The line a server sends for the text [data_chunk], when the text
    needs no escaping. *)
Definition content_line (data_chunk : pystr) : pystr :=
  str "data:" ++ 32 :: qstr "{'choices':[{'delta':{'content':'"
    ++ data_chunk ++ qstr "'}}]}".

(** Text a JSON string holds as it is: no control character, no double
    quote, no backslash. *)
Definition plain_text (s : pystr) : bool :=
  forallb (fun c => (32 <=? c) && negb (c =? 34) && negb (c =? 92)) s.

(** Plain text that holds neither the marker nor the sentinel. *)
Definition deliverable (data_chunk : pystr) : Prop :=
  plain_text data_chunk = true /\
  contains (str "data:") data_chunk = false /\
  contains (str "[DONE]") data_chunk = false.

(** ** The same code, with the console and the limits of the interpreter *)

(** [decoder_limit s]: [json.loads(s)] runs into a limit of the
    interpreter before it finds an error of syntax, and which one. *)
Variable decoder_limit : pystr -> option limit_fault.

(** [console call]: the exception [call] raises, if it raises. *)
Variable console : print_call -> option exn.

(** [response.text] as the last handler of [_stream_response] reads it,
    after the loop has taken lines from the response: the text, or the
    exception the read raises (a stream that was read to its end gives
    [RuntimeError]). *)
Variable streamed_text : response -> outcome pystr.

(** [json.loads(s)] *)
Definition json_loads_env (s : pystr) : outcome json :=
  match decoder_limit s with
  | Some f => Raised (fault_exn f)
  | None =>
      match json_loads s with
      | Some v => Returned v
      | None => Raised JSONDecodeError
      end
  end.

(** Lines 93 to 98, for a [str] [data_chunk]. When the [print] of line
    94 raises, the bare [except] resumes the loop: the chunk is in the
    buffer by then, and the buffer is neither split nor yielded from. *)
Definition feed_env (partial_sentence data_chunk : pystr) : list pystr * pystr :=
  match console (PrintChunk data_chunk) with
  | Some _ => ([], partial_sentence ++ data_chunk)
  | None => feed partial_sentence data_chunk
  end.

Fixpoint feed_all_env (partial_sentence : pystr) (chunks : list pystr)
  : list pystr * pystr :=
  match chunks with
  | [] => ([], partial_sentence)
  | data_chunk :: rest =>
      let '(complete, partial') := feed_env partial_sentence data_chunk in
      let '(later, final) := feed_all_env partial' rest in
      (complete ++ later, final)
  end.

(** The [for] loop and the statements after it, as they run inside the
    outer [try]: an exception of [json.loads] leaves the block. *)
Fixpoint stream_lines_env (lines : list pystr) (partial_sentence : pystr) : gen_trace :=
  match lines with
  | [] => {| yielded := flush partial_sentence; finish := Returned JNull |}
  | value :: rest =>
      let modified_value := re_sub_delete (str "data:") value in
      if nonempty modified_value && negb (contains (str "[DONE]") modified_value) then
        match json_loads_env modified_value with
        | Raised e => {| yielded := []; finish := Raised e |}
        | Returned json_modified_value =>
            match delta_content json_modified_value with
            | Returned (JStr data_chunk) =>
                let '(complete, partial') := feed_env partial_sentence data_chunk in
                yield_then complete (stream_lines_env rest partial')
            | Returned JNull => stream_lines_env rest partial_sentence
            | Returned _ => stream_lines_env rest partial_sentence
            | Raised _ => stream_lines_env rest partial_sentence
            end
        end
      else stream_lines_env rest partial_sentence
  end.

(** The two [except] clauses of [_stream_response] (lines 104 to 109),
    applied to what the [try] block did; [response_text] is what reading
    [response.text] gives. *)
Definition stream_handlers_env (response_text : outcome pystr) (tried : gen_trace)
  : gen_trace :=
  match finish tried with
  | Returned _ => tried
  | Raised e =>
      if is_JSONDecodeError e
      then {| yielded := yielded tried; finish := Returned JNull |}
      else
        match console (PrintStreamError e) with
        | Some e' => {| yielded := yielded tried; finish := Raised e' |}
        | None =>
            match response_text with
            | Returned raw =>
                {| yielded := yielded tried ++ [str "Response content: " ++ raw];
                   finish := Returned JNull |}
            | Raised e' => {| yielded := yielded tried; finish := Raised e' |}
            end
        end
  end.

Definition _stream_response_env (api_url_ : pystr) (headers_ : list (pystr * pystr))
    (payload_ : payload) (chunk_size : Z) (w : world) : gen_trace * world :=
  let '(result, w1) :=
    post {| url := api_url_; headers := headers_;
            json_body := payload_; stream_kw := true |} w in
  match result with
  | PostOk response_ =>
      (stream_handlers_env (streamed_text response_)
         (stream_lines_env (iter_lines response_) []), w1)
  | PostRaised e =>
      if is_JSONDecodeError e
      then ({| yielded := []; finish := Returned JNull |}, w1)
      else
        match console (PrintStreamError e) with
        | Some e' => ({| yielded := []; finish := Raised e' |}, w1)
        | None => ({| yielded := []; finish := Raised UnboundLocalError |}, w1)
        end
  end.

(** [response.json()]: only an error of syntax is turned into the
    decode error of [requests]. *)
Definition response_json_env (r : response) : outcome json :=
  match decoder_limit (text r) with
  | Some f => Raised (fault_exn f)
  | None => response_json r
  end.

(** A handler that prints before it returns: when the [print] raises,
    that exception leaves the function. *)
Definition after_print (call : print_call) (o : outcome json) : outcome json :=
  match console call with
  | Some e' => Raised e'
  | None => o
  end.

Definition full_response_handlers_env (bound : option response) (e : exn) : outcome json :=
  if is_RequestException e then
    after_print (PrintRequestError e)
      match bound with
      | Some r => Returned (JStr (str "Response content: " ++ text r))
      | None => Raised UnboundLocalError
      end
  else if is_JSONDecodeError e then Returned JNull
  else if is_KeyError e then
    after_print (PrintKeyError e)
      match bound with
      | Some r => Returned (JStr (str "Error parsing response: " ++ text r))
      | None => Raised UnboundLocalError
      end
  else Raised e.

Definition _get_full_response_env (api_url_ : pystr) (headers_ : list (pystr * pystr))
    (payload_ : payload) (w : world) : outcome json * world :=
  let '(result, w1) :=
    post {| url := api_url_; headers := headers_;
            json_body := payload_; stream_kw := false |} w in
  match result with
  | PostRaised e => (full_response_handlers_env None e, w1)
  | PostOk response_ =>
      let tried :=
        _ <- raise_for_status response_ ;;
        body <- response_json_env response_ ;;
        message_content body in
      match tried with
      | Returned v => (Returned v, w1)
      | Raised e => (full_response_handlers_env (Some response_) e, w1)
      end
  end.

(** What the line is to the loop, once the marker is deleted and when
    the guard of line 88 lets it through. *)
Definition decoded_line (value : pystr) (o : outcome json) : Prop :=
  let modified_value := re_sub_delete (str "data:") value in
  nonempty modified_value = true /\
  contains (str "[DONE]") modified_value = false /\
  json_loads_env modified_value = o.

(** A line that carries the text [data_chunk]. *)
Definition content_frame_env (value data_chunk : pystr) : Prop :=
  exists j, decoded_line value (Returned j) /\
            delta_content j = Returned (JStr data_chunk).

(** A line that decodes but carries no text: the path to the content is
    missing, or what is there is no string. *)
Definition ignorable_frame (value : pystr) : Prop :=
  exists j, decoded_line value (Returned j) /\
            forall data_chunk, delta_content j <> Returned (JStr data_chunk).

(** A line that does not decode. *)
Definition undecodable_line (value : pystr) : Prop :=
  decoded_line value (Raised JSONDecodeError).

(** A line on which the decoder runs into the limit [f]. *)
Definition faulting_line (value : pystr) (f : limit_fault) : Prop :=
  decoded_line value (Raised (fault_exn f)).

(** The decoder has no trouble with the limits on any of the lines. *)
Definition within_limits (lines : list pystr) : Prop :=
  Forall (fun value => decoder_limit (re_sub_delete (str "data:") value) = None) lines.

(** ** Facts about the decoder: the fuel of [json_loads] is enough *)

Lemma drop_while_length (f : N -> bool) (s : pystr) :
  (length (drop_while f s) <= length s)%nat.
Proof.
  induction s as [|c s IH]; simpl; [lia|]. destruct (f c); simpl; lia.
Qed.

Lemma skip_ws_length (s : pystr) : (length (skip_ws s) <= length s)%nat.
Proof. apply drop_while_length. Qed.

Ltac break_match_in H :=
  match type of H with
  | context [if ?b then _ else _] => destruct b
  | context [match ?x with _ => _ end] => destruct x
  end.

Lemma scan_string_shorter (n : nat) :
  forall s acc t r,
    (length s <= n)%nat ->
    scan_string s acc = Some (t, r) ->
    (length r < length s)%nat.
Proof.
  induction n as [|n IH]; intros s acc t r Hn H;
    (destruct s as [|c s]; [discriminate|]); cbn [length] in *; [lia|].
  cbn [scan_string] in H.
  repeat break_match_in H; try discriminate;
    try (injection H as <- <-; lia);
    apply IH in H; cbn [length] in *; lia.
Qed.

Lemma optional_char_length (p : N -> bool) (s : pystr) :
  (length (snd (optional_char p s)) <= length s)%nat.
Proof.
  destruct s as [|c r]; simpl; [lia|]. destruct (p c); simpl; lia.
Qed.

Lemma int_part_shorter (s digits r : pystr) :
  int_part s = Some (digits, r) -> (length r < length s)%nat.
Proof.
  destruct s as [|d s]; simpl; [discriminate|].
  pose proof (drop_while_length is_digit s).
  destruct (d =? 48); [intros [= <- <-]; lia|].
  destruct ((49 <=? d) && (d <=? 57)); [intros [= <- <-]; lia | discriminate].
Qed.

Lemma frac_part_length (s : pystr) :
  (length (snd (frac_part s)) <= length s)%nat.
Proof.
  destruct s as [|d s]; simpl; [lia|].
  pose proof (drop_while_length is_digit s).
  destruct ((d =? 46) && nonempty (take_while is_digit s)); simpl; lia.
Qed.

Lemma exp_part_length (s : pystr) :
  (length (snd (exp_part s)) <= length s)%nat.
Proof.
  destruct s as [|e s]; simpl; [lia|].
  destruct ((e =? 101) || (e =? 69)); simpl; [|lia].
  pose proof (optional_char_length (fun g => (g =? 43) || (g =? 45)) s) as Hsign.
  destruct (optional_char _ s) as [esign r']. simpl in Hsign.
  pose proof (drop_while_length is_digit r').
  destruct (nonempty (take_while is_digit r')); simpl; lia.
Qed.

Lemma scan_number_shorter (s lexeme r : pystr) :
  scan_number s = Some (lexeme, r) -> (length r < length s)%nat.
Proof.
  unfold scan_number.
  pose proof (optional_char_length (fun c => c =? 45) s) as Hsign.
  destruct (optional_char _ s) as [sign s1]. simpl in Hsign.
  destruct (int_part s1) as [[digits s2]|] eqn:Hint; [|discriminate].
  apply int_part_shorter in Hint.
  pose proof (frac_part_length s2) as Hfrac.
  destruct (frac_part s2) as [frac s3]. simpl in Hfrac.
  pose proof (exp_part_length s3) as Hexp.
  destruct (exp_part s3) as [expo s4]. simpl in Hexp.
  intros [= <- <-]. lia.
Qed.

Lemma scan_keyword_shorter (kw : string) (v w : json) (s r : pystr) :
  (0 < length (str kw))%nat ->
  (0 < length s)%nat ->
  scan_keyword kw v s = Some (w, r) -> (length r < length s)%nat.
Proof.
  unfold scan_keyword. intros Hkw Hs.
  destruct (starts_with (str kw) s); [|discriminate].
  intros [= <- <-]. rewrite length_skipn. lia.
Qed.

(** One unfolding of each of the three functions. *)
Lemma parse_value_unfold (f : nat) (s : pystr) :
  parse_value (S f) s =
  ltac:(let body := eval cbn [parse_value] in (parse_value (S f) s) in exact body).
Proof. reflexivity. Qed.

Lemma parse_elements_unfold (f : nat) (s : pystr) (acc : list json) :
  parse_elements (S f) s acc =
  ltac:(let body := eval cbn [parse_elements] in (parse_elements (S f) s acc) in
        exact body).
Proof. reflexivity. Qed.

Lemma parse_members_unfold (f : nat) (s : pystr) (acc : list (pystr * json)) :
  parse_members (S f) s acc =
  ltac:(let body := eval cbn [parse_members] in (parse_members (S f) s acc) in
        exact body).
Proof. reflexivity. Qed.

(** Whatever is read is not empty. *)
Lemma parse_shorter (f : nat) :
  (forall s v r, parse_value f s = Some (v, r) -> (length r < length s)%nat) /\
  (forall s acc v r,
      parse_elements f s acc = Some (v, r) -> (length r < length s)%nat) /\
  (forall s acc v r,
      parse_members f s acc = Some (v, r) -> (length r < length s)%nat).
Proof.
  induction f as [|f (IHv & IHe & IHm)]; [repeat split; discriminate|].
  split; [|split].
  - intros s v r. rewrite parse_value_unfold.
    destruct s as [|c s]; [discriminate|]. cbn [length].
    destruct (c =? 34).
    { destruct (scan_string s []) as [[t r']|] eqn:E; [|discriminate].
      apply (scan_string_shorter (length s)) in E; [|lia].
      intros [= <- <-]. lia. }
    destruct (c =? 123).
    { pose proof (skip_ws_length s) as Hws.
      destruct (skip_ws s) as [|x r']; [discriminate|]. cbn [length] in Hws.
      destruct (x =? 125); [intros [= <- <-]; lia|].
      intros H. apply IHm in H. cbn [length] in H. lia. }
    destruct (c =? 91).
    { pose proof (skip_ws_length s) as Hws.
      destruct (skip_ws s) as [|x r']; [discriminate|]. cbn [length] in Hws.
      destruct (x =? 93); [intros [= <- <-]; lia|].
      intros H. apply IHe in H. cbn [length] in H. lia. }
    unfold first_some. intros H.
    repeat match type of H with
           | context [scan_keyword ?kw ?w ?t] =>
               let E := fresh "E" in
               destruct (scan_keyword kw w t) as [[? ?]|] eqn:E;
               [injection H as <- <-;
                apply scan_keyword_shorter in E; cbn; try lia; exact E|]
           | context [scan_number ?t] =>
               let E := fresh "E" in
               destruct (scan_number t) as [[? ?]|] eqn:E;
               [injection H as <- <-; apply scan_number_shorter in E; exact E|]
           end.
    discriminate.
  - intros s acc v r. rewrite parse_elements_unfold.
    destruct (parse_value f s) as [[v' r']|] eqn:E; [|discriminate].
    apply IHv in E. pose proof (skip_ws_length r') as Hws.
    destruct (skip_ws r') as [|x r'']; [discriminate|]. cbn [length] in Hws.
    destruct (x =? 93); [intros [= <- <-]; lia|].
    destruct (x =? 44); [|discriminate].
    intros H. apply IHe in H. pose proof (skip_ws_length r''). lia.
  - intros s acc v r. rewrite parse_members_unfold.
    destruct s as [|q s]; [discriminate|]. cbn [length].
    destruct (q =? 34); [|discriminate].
    destruct (scan_string s []) as [[key r1]|] eqn:E1; [|discriminate].
    apply (scan_string_shorter (length s)) in E1; [|lia].
    pose proof (skip_ws_length r1) as Hws1.
    destruct (skip_ws r1) as [|colon r2]; [discriminate|]. cbn [length] in Hws1.
    destruct (colon =? 58); [|discriminate].
    destruct (parse_value f (skip_ws r2)) as [[v' r3]|] eqn:E3; [|discriminate].
    apply IHv in E3. pose proof (skip_ws_length r2) as Hws2.
    pose proof (skip_ws_length r3) as Hws3.
    destruct (skip_ws r3) as [|x r4]; [discriminate|]. cbn [length] in Hws3.
    destruct (x =? 125); [intros [= <- <-]; lia|].
    destruct (x =? 44); [|discriminate].
    intros H. apply IHm in H. pose proof (skip_ws_length r4). lia.
Qed.

(** One more unit of fuel changes nothing once the fuel is twice the
    length of the text. *)
Lemma parse_fuel_stable (f : nat) :
  (forall s, (2 * length s <= f)%nat -> parse_value (S f) s = parse_value f s) /\
  (forall s acc, (2 * length s + 1 <= f)%nat ->
                 parse_elements (S f) s acc = parse_elements f s acc) /\
  (forall s acc, (2 * length s + 1 <= f)%nat ->
                 parse_members (S f) s acc = parse_members f s acc).
Proof.
  induction f as [|f (IHv & IHe & IHm)].
  { split; [|split; intros; lia].
    intros [|c s] H; [reflexivity|]. cbn [length] in H. lia. }
  destruct (parse_shorter f) as (Sv & _ & _).
  split; [|split].
  - intros s Hf. rewrite (parse_value_unfold (S f)), (parse_value_unfold f).
    destruct s as [|c s]; [reflexivity|]. cbn [length] in Hf.
    destruct (c =? 34); [reflexivity|].
    pose proof (skip_ws_length s) as Hws.
    destruct (c =? 123).
    { destruct (skip_ws s) as [|x r']; [reflexivity|]. cbn [length] in Hws.
      destruct (x =? 125); [reflexivity|].
      apply IHm. cbn [length]. lia. }
    destruct (c =? 91); [|reflexivity].
    destruct (skip_ws s) as [|x r']; [reflexivity|]. cbn [length] in Hws.
    destruct (x =? 93); [reflexivity|].
    apply IHe. cbn [length]. lia.
  - intros s acc Hf.
    rewrite (parse_elements_unfold (S f)), (parse_elements_unfold f).
    rewrite IHv by lia.
    destruct (parse_value f s) as [[v r]|] eqn:E; [|reflexivity].
    apply Sv in E. pose proof (skip_ws_length r) as Hws.
    destruct (skip_ws r) as [|x r']; [reflexivity|]. cbn [length] in Hws.
    destruct (x =? 93); [reflexivity|].
    destruct (x =? 44); [|reflexivity].
    apply IHe. pose proof (skip_ws_length r'). lia.
  - intros s acc Hf.
    rewrite (parse_members_unfold (S f)), (parse_members_unfold f).
    destruct s as [|q s]; [reflexivity|]. cbn [length] in Hf.
    destruct (q =? 34); [|reflexivity].
    destruct (scan_string s []) as [[key r1]|] eqn:E1; [|reflexivity].
    apply (scan_string_shorter (length s)) in E1; [|lia].
    pose proof (skip_ws_length r1) as Hws1.
    destruct (skip_ws r1) as [|colon r2]; [reflexivity|]. cbn [length] in Hws1.
    destruct (colon =? 58); [|reflexivity].
    pose proof (skip_ws_length r2) as Hws2.
    rewrite IHv by lia.
    destruct (parse_value f (skip_ws r2)) as [[v r3]|] eqn:E3; [|reflexivity].
    apply Sv in E3. pose proof (skip_ws_length r3) as Hws3.
    destruct (skip_ws r3) as [|x r4]; [reflexivity|]. cbn [length] in Hws3.
    destruct (x =? 125); [reflexivity|].
    destruct (x =? 44); [|reflexivity].
    apply IHm. pose proof (skip_ws_length r4). lia.
Qed.

(** [json_loads] gives what any larger fuel gives. *)
Lemma json_loads_fuel_enough (s : pystr) (fuel : nat) :
  (2 * length s <= fuel)%nat -> json_loads_fuel fuel s = json_loads s.
Proof.
  unfold json_loads, json_loads_fuel. intros Hf.
  replace fuel with ((fuel - 2 * length s) + 2 * length s)%nat by lia.
  induction (fuel - 2 * length s)%nat as [|extra IH]; [reflexivity|].
  cbn [Nat.add]. destruct (parse_fuel_stable (extra + 2 * length s)) as (Hv & _ & _).
  rewrite Hv; [exact IH|]. pose proof (skip_ws_length s). lia.
Qed.

(** ** Facts about text *)

Lemma visible_app (a b : pystr) : visible (a ++ b) = visible a ++ visible b.
Proof. apply filter_app. Qed.

Lemma visible_drop_spaces (s : pystr) : visible (drop_while is_space s) = visible s.
Proof.
  induction s as [|c s IH]; simpl; [reflexivity|].
  destruct (is_space c) eqn:E; simpl; rewrite ?E; simpl; auto.
Qed.

Lemma visible_strip (s : pystr) : visible (strip s) = visible s.
Proof.
  unfold strip, rstrip, lstrip, visible.
  rewrite filter_rev.
  fold (visible (drop_while is_space (rev (drop_while is_space s)))).
  rewrite visible_drop_spaces. unfold visible.
  rewrite filter_rev, rev_involutive.
  apply visible_drop_spaces.
Qed.

Lemma visible_concat_strip (segs : list pystr) :
  visible (concat (map strip segs)) = concat (map visible segs).
Proof.
  induction segs as [|seg segs IH]; simpl; [reflexivity|].
  now rewrite visible_app, visible_strip, IH.
Qed.

Lemma visible_weave (segs : list pystr) (seps : pystr) :
  Forall (fun c => is_space c = true) seps ->
  visible (weave segs seps) = concat (map visible segs).
Proof.
  revert seps; induction segs as [|seg segs IH]; intros seps Hsp; simpl; [reflexivity|].
  destruct seps as [|w seps].
  - now rewrite visible_app, IH.
  - inversion Hsp as [|? ? Hw Hrest]; subst.
    rewrite visible_app. simpl. rewrite Hw. simpl. now rewrite IH.
Qed.

Lemma weave_app (a b : list pystr) (sa sb : pystr) :
  length sa = length a ->
  weave (a ++ b) (sa ++ sb) = weave a sa ++ weave b sb.
Proof.
  revert sa; induction a as [|x a IH]; intros [|w sa] Hlen; simpl in *;
    try discriminate; [reflexivity|].
  injection Hlen as Hlen. rewrite IH by assumption.
  now rewrite <- app_assoc.
Qed.

Lemma flush_visible (s : pystr) : visible (concat (flush s)) = visible s.
Proof.
  unfold flush. destruct s as [|c s]; simpl; [reflexivity|].
  rewrite app_nil_r. apply (visible_strip (c :: s)).
Qed.

(** ** Facts about the split *)

Lemma split_after_not_nil (before s : pystr) : split_after before s <> [].
Proof.
  revert before; induction s as [|c s IH]; intros before; simpl; [discriminate|].
  destruct (sentence_break before c); [discriminate|].
  destruct (split_after (c :: before) s); discriminate.
Qed.

Lemma split_seps_are_spaces (before s : pystr) :
  Forall (fun c => is_space c = true) (split_seps before s).
Proof.
  revert before; induction s as [|c s IH]; intros before; simpl; [constructor|].
  destruct (sentence_break before c) eqn:E; [|apply IH].
  constructor; [|apply IH].
  unfold sentence_break in E. now apply andb_prop in E.
Qed.

Lemma split_seps_length (before s : pystr) :
  length (split_seps before s) = length (removelast (split_after before s)).
Proof.
  revert before; induction s as [|c s IH]; intros before; [reflexivity|].
  simpl split_seps; simpl split_after.
  specialize (IH (c :: before)).
  pose proof (split_after_not_nil (c :: before) s) as Hne.
  destruct (sentence_break before c);
    destruct (split_after (c :: before) s) as [|piece pieces]; try contradiction.
  - change (removelast ([] :: piece :: pieces))
      with ([] :: removelast (piece :: pieces)).
    simpl length. now rewrite IH.
  - destruct pieces as [|q qs]; [exact IH|].
    change (removelast ((c :: piece) :: q :: qs))
      with ((c :: piece) :: removelast (q :: qs)).
    change (removelast (piece :: q :: qs))
      with (piece :: removelast (q :: qs)) in IH.
    exact IH.
Qed.

(** The pieces, with the consumed characters put back, are the text. *)
Lemma split_after_weave (before s : pystr) :
  weave (removelast (split_after before s)) (split_seps before s)
    ++ last (split_after before s) [] = s.
Proof.
  revert before; induction s as [|c s IH]; intros before; [reflexivity|].
  simpl split_seps; simpl split_after.
  specialize (IH (c :: before)).
  pose proof (split_after_not_nil (c :: before) s) as Hne.
  destruct (sentence_break before c);
    destruct (split_after (c :: before) s) as [|piece pieces]; try contradiction.
  - change (c :: (weave (removelast (piece :: pieces)) (split_seps (c :: before) s)
                    ++ last (piece :: pieces) []) = c :: s).
    f_equal. exact IH.
  - destruct pieces as [|q qs].
    + simpl in IH |- *. destruct (split_seps (c :: before) s); simpl in IH; now rewrite IH.
    + change (removelast ((c :: piece) :: q :: qs))
        with ((c :: piece) :: removelast (q :: qs)).
      change (last ((c :: piece) :: q :: qs) [])
        with (last (q :: qs) ([] : pystr)).
      change (removelast (piece :: q :: qs))
        with (piece :: removelast (q :: qs)) in IH.
      change (last (piece :: q :: qs) [])
        with (last (q :: qs) ([] : pystr)) in IH.
      destruct (split_seps (c :: before) s) as [|w seps];
        cbn [weave app] in IH |- *; now rewrite <- IH.
Qed.

(** One [feed]: the yielded sentences are stripped segments of the buffer,
    and nothing but one whitespace character per segment is taken out. *)
Lemma feed_weave (partial_sentence data_chunk : pystr) :
  exists segs seps,
    fst (feed partial_sentence data_chunk) = map strip segs /\
    length seps = length segs /\
    Forall (fun c => is_space c = true) seps /\
    weave segs seps ++ snd (feed partial_sentence data_chunk)
      = partial_sentence ++ data_chunk.
Proof.
  unfold feed, re_split_sentences; simpl.
  exists (removelast (split_after [] (partial_sentence ++ data_chunk))),
         (split_seps [] (partial_sentence ++ data_chunk)).
  repeat split.
  - apply split_seps_length.
  - apply split_seps_are_spaces.
  - apply split_after_weave.
Qed.

Lemma feed_all_cons (partial_sentence chunk : pystr) (chunks : list pystr) :
  feed_all partial_sentence (chunk :: chunks) =
  (fst (feed partial_sentence chunk)
     ++ fst (feed_all (snd (feed partial_sentence chunk)) chunks),
   snd (feed_all (snd (feed partial_sentence chunk)) chunks)).
Proof.
  cbn [feed_all].
  destruct (feed partial_sentence chunk) as [complete partial'].
  cbn [fst snd]. now destruct (feed_all partial' chunks).
Qed.

Lemma feed_all_weave (chunks : list pystr) (partial_sentence : pystr) :
  exists segs seps,
    fst (feed_all partial_sentence chunks) = map strip segs /\
    length seps = length segs /\
    Forall (fun c => is_space c = true) seps /\
    weave segs seps ++ snd (feed_all partial_sentence chunks)
      = partial_sentence ++ concat chunks.
Proof.
  revert partial_sentence; induction chunks as [|chunk chunks IH]; intros partial_sentence.
  - exists [], []. simpl. repeat split; [constructor | now rewrite app_nil_r].
  - rewrite feed_all_cons. cbn [fst snd concat].
    destruct (feed_weave partial_sentence chunk) as (segs1 & seps1 & E1 & L1 & S1 & W1).
    destruct (IH (snd (feed partial_sentence chunk)))
      as (segs2 & seps2 & E2 & L2 & S2 & W2).
    exists (segs1 ++ segs2), (seps1 ++ seps2). repeat split.
    + now rewrite map_app, E1, E2.
    + rewrite !length_app. congruence.
    + apply Forall_app; split; assumption.
    + rewrite weave_app by assumption.
      rewrite <- app_assoc, W2, app_assoc, W1, <- app_assoc. reflexivity.
Qed.

(** ** The loop and the segmenter *)

Lemma yield_then_nil (t : gen_trace) : yield_then [] t = t.
Proof. now destruct t. Qed.

(** On lines that all carry text, the loop is the segmenter followed by
    the final flush. *)
Lemma stream_lines_content_frames (lines chunks : list pystr) :
  Forall2 content_frame lines chunks ->
  forall partial_sentence,
    stream_lines lines partial_sentence =
    {| yielded := fst (feed_all partial_sentence chunks)
                    ++ flush (snd (feed_all partial_sentence chunks));
       finish := Returned JNull |}.
Proof.
  induction 1 as [|value chunk lines chunks Hframe _ IH]; intros partial_sentence.
  - reflexivity.
  - destruct Hframe as (Hne & Hdone & j & Hj & Hc).
    cbn zeta in Hne, Hdone, Hj.
    rewrite feed_all_cons. cbn [stream_lines fst snd].
    rewrite Hne, Hdone, Hj, Hc. cbn [negb andb].
    destruct (feed partial_sentence chunk) as [complete partial'].
    rewrite IH. unfold yield_then. cbn [yielded finish fst snd].
    now rewrite app_assoc.
Qed.

(** A line that does not decode ends the generator on the spot: nothing
    more is yielded, the buffer included. *)
Lemma undecodable_line_ends_stream (value : pystr) (rest : list pystr)
    (partial_sentence : pystr) :
  nonempty (re_sub_delete (str "data:") value) = true ->
  contains (str "[DONE]") (re_sub_delete (str "data:") value) = false ->
  json_loads (re_sub_delete (str "data:") value) = None ->
  stream_lines (value :: rest) partial_sentence =
  {| yielded := []; finish := Returned JNull |}.
Proof.
  intros Hne Hdone Hj. cbn [stream_lines]. now rewrite Hne, Hdone, Hj.
Qed.

(** C1, as the code has it: the sentences a fresh segmenter emits are
    the stripped forms of consecutive segments of the input; these
    segments, each followed by the one whitespace character its split
    consumed, and then the pending buffer, spell the concatenation of the
    fragments exactly. Stripping and the final flush only remove
    whitespace: the characters that are not whitespace come out once
    each, in arrival order. *)
Theorem segmenter_reconstructs_up_to_trimming (chunks : list pystr) :
  let emitted := fst (feed_all [] chunks) in
  let pending := snd (feed_all [] chunks) in
  (exists segs seps,
      emitted = map strip segs /\
      length seps = length segs /\
      Forall (fun c => is_space c = true) seps /\
      weave segs seps ++ pending = concat chunks) /\
  visible (concat (emitted ++ flush pending)) = visible (concat chunks).
Proof.
  cbn zeta.
  destruct (feed_all_weave chunks []) as (segs & seps & E & L & S & W).
  cbn [app] in W. split.
  - exists segs, seps. now repeat split.
  - rewrite concat_app, visible_app, flush_visible, E, visible_concat_strip.
    rewrite <- W, visible_app, visible_weave by assumption. reflexivity.
Qed.

(** C7, as the code has it: a line that is empty once the marker is
    deleted, or that holds the sentinel, is passed over. It yields
    nothing, leaves the buffer as it is and does not end the stream: the
    lines after it are processed as if it were not there. The buffer is
    flushed once the lines are exhausted: when such a line is the last
    one, the run ends there by yielding the buffer, stripped, if it is
    not empty, and nothing if it is. *)
Theorem end_marker_line_is_skipped (earlier later : list pystr)
    (value partial_sentence : pystr) :
  stream_end_line value = true ->
  stream_lines (earlier ++ value :: later) partial_sentence =
  stream_lines (earlier ++ later) partial_sentence /\
  stream_lines [value] partial_sentence =
  {| yielded := if nonempty partial_sentence then [strip partial_sentence] else [];
     finish := Returned JNull |}.
Proof.
  intros Hend.
  assert (Hskip : forall rest p, stream_lines (value :: rest) p = stream_lines rest p).
  { intros rest p. cbn [stream_lines].
    unfold stream_end_line in Hend. cbn zeta in Hend.
    destruct (nonempty (re_sub_delete (str "data:") value));
      destruct (contains (str "[DONE]") (re_sub_delete (str "data:") value));
      try discriminate; reflexivity. }
  split; [|rewrite Hskip; reflexivity].
  revert partial_sentence.
  induction earlier as [|line earlier IH]; intros partial_sentence.
  - apply Hskip.
  - cbn [app stream_lines].
    destruct (nonempty (re_sub_delete (str "data:") line)
              && negb (contains (str "[DONE]") (re_sub_delete (str "data:") line)));
      [|apply IH].
    destruct (json_loads (re_sub_delete (str "data:") line)) as [j|]; [|reflexivity].
    destruct (delta_content j) as [[| | |chunk| |]|]; try apply IH.
    destruct (feed partial_sentence chunk) as [complete partial'].
    now rewrite IH.
Qed.

(** ** [generate] and the caller's history *)

(** C9: running [generate] (its statements run when the generator it
    returns is driven) changes the caller's history in one way only: a
    system message carrying the system prompt is put at index 0; the
    messages already there follow it, unchanged and in their order. The
    request that goes out afterwards carries that same list. *)
Theorem generate_prepends_system_message (a : generate_args) (w : world) :
  exists body,
    generate a = PyGenerator body /\
    conversation_history (snd (body w)) =
      {| role := str "system"; content := arg_system_prompt a |}
        :: conversation_history w /\
    exists req,
      sent (snd (body w)) = sent w ++ [req] /\
      messages (json_body req) =
        {| role := str "system"; content := arg_system_prompt a |}
          :: conversation_history w.
Proof.
  eexists. split; [reflexivity|].
  unfold _stream_response, _get_full_response, post, insert_system_prompt.
  destruct (arg_stream a); cbn [conversation_history sent].
  - destruct (requests_post _) as [r|e].
    + split; [reflexivity|]. eexists. split; reflexivity.
    + destruct (is_JSONDecodeError e); (split; [reflexivity|]);
        eexists; split; reflexivity.
  - destruct (requests_post _) as [r|e].
    + destruct (bind _ _); (split; [reflexivity|]); eexists; split; reflexivity.
    + split; [reflexivity|]. eexists. split; reflexivity.
Qed.

(** C10: whatever the [stream] argument, exactly one request goes out
    and the payload in it has its stream field set to true; the
    argument only reaches the transport's own keyword and the choice of
    the client-side path. *)
Theorem payload_stream_always_true (a : generate_args) (w : world) :
  exists body,
    generate a = PyGenerator body /\
    exists req,
      sent (snd (body w)) = sent w ++ [req] /\
      stream (json_body req) = true /\
      json_body req =
        {| model := arg_model a;
           messages := {| role := str "system"; content := arg_system_prompt a |}
                         :: conversation_history w;
           temperature := arg_temperature a;
           max_tokens := arg_max_tokens a;
           stop := [];
           stream := true |} /\
      stream_kw req = arg_stream a.
Proof.
  eexists. split; [reflexivity|].
  unfold _stream_response, _get_full_response, post, insert_system_prompt.
  destruct (arg_stream a); cbn [conversation_history sent].
  - destruct (requests_post _) as [r|e].
    + eexists. repeat split.
    + destruct (is_JSONDecodeError e); eexists; repeat split.
  - destruct (requests_post _) as [r|e].
    + destruct (bind _ _); eexists; repeat split.
    + eexists. repeat split.
Qed.

(** ** Resuming the split: the chunking does not matter *)

Ltac bool_lia :=
  unfold is_space, is_upper_AZ, is_lower_az, is_digit, not_terminal in *;
  repeat (progress
            rewrite ?andb_true_iff, ?orb_true_iff, ?andb_false_iff, ?orb_false_iff,
              ?negb_true_iff, ?negb_false_iff,
              ?N.leb_le, ?N.leb_gt, ?N.eqb_eq, ?N.eqb_neq, ?N.ltb_lt, ?N.ltb_ge in *);
  lia.

Lemma space_not_dot (c : N) : is_space c = true -> (c =? 46) = false.
Proof. intros H. destruct (c =? 46) eqn:E; [|reflexivity]. exfalso. bool_lia. Qed.

Lemma space_not_question (c : N) : is_space c = true -> (c =? 63) = false.
Proof. intros H. destruct (c =? 63) eqn:E; [|reflexivity]. exfalso. bool_lia. Qed.

Lemma space_not_lower (c : N) : is_space c = true -> is_lower_az c = false.
Proof. intros H. destruct (is_lower_az c) eqn:E; [|reflexivity]. exfalso. bool_lia. Qed.

Lemma space_not_upper (c : N) : is_space c = true -> is_upper_AZ c = false.
Proof. intros H. destruct (is_upper_AZ c) eqn:E; [|reflexivity]. exfalso. bool_lia. Qed.

Lemma space_not_word (c : N) :
  alnum_excludes_spaces -> is_space c = true -> is_word c = false.
Proof.
  intros Htable H. unfold is_word.
  destruct (c <? 128) eqn:E; [|now apply Htable].
  destruct (is_upper_AZ c || is_lower_az c || is_digit c || (c =? 95)) eqn:W;
    [|reflexivity].
  exfalso. bool_lia.
Qed.

(** What lies behind a consumed whitespace character has no say in the
    lookbehinds. *)
Lemma sentence_break_behind_space (p rest : pystr) (w c : N) :
  alnum_excludes_spaces -> is_space w = true ->
  sentence_break (p ++ w :: rest) c = sentence_break p c.
Proof.
  intros Htable Hw.
  pose proof (space_not_dot w Hw) as Hdot.
  pose proof (space_not_question w Hw) as Hq.
  pose proof (space_not_lower w Hw) as Hlow.
  pose proof (space_not_upper w Hw) as Hup.
  pose proof (space_not_word w Htable Hw) as Hword.
  unfold sentence_break, after_lone_word_char, after_capitalised_pair, after_terminal.
  destruct p as [|d [|x [|y p]]]; cbn [app];
    rewrite ?Hdot, ?Hq, ?Hlow, ?Hup, ?Hword;
    repeat match goal with
           | |- context [match ?r with [] => _ | _ :: _ => _ end] => destruct r
           | |- context [?a =? 46] => destruct (a =? 46)
           | |- context [is_word ?a] => destruct (is_word a)
           | |- context [is_lower_az ?a] => destruct (is_lower_az a)
           end;
    reflexivity.
Qed.

Lemma split_after_behind_space (s p rest : pystr) (w : N) :
  alnum_excludes_spaces -> is_space w = true ->
  split_after (p ++ w :: rest) s = split_after p s.
Proof.
  intros Htable Hw. revert p. induction s as [|c s IH]; intros p; [reflexivity|].
  cbn [split_after]. rewrite sentence_break_behind_space by assumption.
  change (c :: p ++ w :: rest) with ((c :: p) ++ w :: rest). now rewrite IH.
Qed.

Lemma last_break_is_space (s before k : pystr) :
  last_break before s = Some k -> exists w rest, k = w :: rest /\ is_space w = true.
Proof.
  revert before. induction s as [|c s IH]; intros before; [discriminate|].
  cbn [last_break]. destruct (last_break (c :: before) s) eqn:E.
  - intros [= <-]. eapply IH, E.
  - destruct (sentence_break before c) eqn:B; [|discriminate].
    intros [= <-]. exists c, before. split; [reflexivity|].
    unfold sentence_break in B. now apply andb_prop in B.
Qed.

(** With no match the split is the text; with one it has two pieces at
    least. *)
Lemma split_after_shape (s before : pystr) :
  match last_break before s with
  | None => split_after before s = [s]
  | Some _ => exists p q qs, split_after before s = p :: q :: qs
  end.
Proof.
  revert before. induction s as [|c s IH]; intros before; [reflexivity|].
  cbn [last_break split_after]. specialize (IH (c :: before)).
  destruct (last_break (c :: before) s).
  - destruct IH as (piece & q & qs & E). rewrite E.
    destruct (sentence_break before c); eauto.
  - rewrite IH. destruct (sentence_break before c); eauto.
Qed.

(** The split of a text that goes on: the pieces completed so far stay,
    and the split resumes on the last piece with what the lookbehinds
    saw at its start. *)
Lemma split_after_app (s t before : pystr) :
  split_after before (s ++ t) =
  removelast (split_after before s)
    ++ split_after (match last_break before s with Some k => k | None => before end)
         (last (split_after before s) [] ++ t).
Proof.
  revert before. induction s as [|c s IH]; intros before; [reflexivity|].
  cbn [app split_after last_break].
  specialize (IH (c :: before)).
  pose proof (split_after_shape s (c :: before)) as Hshape.
  destruct (last_break (c :: before) s) as [k|].
  - destruct Hshape as (piece & q & qs & E). rewrite E in IH |- *.
    change (removelast (piece :: q :: qs)) with (piece :: removelast (q :: qs)) in IH.
    change (last (piece :: q :: qs) []) with (last (q :: qs) ([] : pystr)) in IH.
    destruct (sentence_break before c).
    + change (removelast ([] :: piece :: q :: qs))
        with ([] :: piece :: removelast (q :: qs)).
      change (last ([] :: piece :: q :: qs) []) with (last (q :: qs) ([] : pystr)).
      rewrite IH. reflexivity.
    + change (removelast ((c :: piece) :: q :: qs))
        with ((c :: piece) :: removelast (q :: qs)).
      change (last ((c :: piece) :: q :: qs) []) with (last (q :: qs) ([] : pystr)).
      rewrite IH. reflexivity.
  - rewrite Hshape. clear IH.
    destruct (sentence_break before c) eqn:B.
    + reflexivity.
    + cbn [removelast last app split_after]. now rewrite B.
Qed.

Lemma split_resumes (s t : pystr) :
  alnum_excludes_spaces ->
  re_split_sentences (s ++ t) =
  removelast (re_split_sentences s)
    ++ re_split_sentences (last (re_split_sentences s) [] ++ t).
Proof.
  intros Htable. unfold re_split_sentences. rewrite split_after_app.
  destruct (last_break [] s) as [k|] eqn:E; [|reflexivity].
  destruct (last_break_is_space _ _ _ E) as (w & rest & -> & Hw).
  now rewrite (split_after_behind_space _ [] rest w Htable Hw).
Qed.

Lemma last_app_nonempty (A : Type) (l l' : list A) (d : A) :
  l' <> [] -> last (l ++ l') d = last l' d.
Proof.
  intros Hne. induction l as [|x l IH]; [reflexivity|].
  cbn [app last]. destruct (l ++ l') eqn:E; [|exact IH].
  apply app_eq_nil in E. destruct E. contradiction.
Qed.

(** ** What a yielded sentence looks like *)

Lemma drop_while_snoc (f : N -> bool) (l : pystr) (a : N) :
  f a = false -> drop_while f (l ++ [a]) = drop_while f l ++ [a].
Proof.
  intros Ha. induction l as [|x l IH]; cbn [app drop_while].
  - now rewrite Ha.
  - destruct (f x); [exact IH | reflexivity].
Qed.

Lemma drop_while_idem (f : N -> bool) (l : pystr) :
  drop_while f (drop_while f l) = drop_while f l.
Proof.
  induction l as [|x l IH]; [reflexivity|]. cbn [drop_while].
  destruct (f x) eqn:E; [exact IH|]. cbn [drop_while]. now rewrite E.
Qed.

Lemma drop_while_head (f : N -> bool) (l : pystr) (a : N) (r : pystr) :
  drop_while f l = a :: r -> f a = false.
Proof.
  induction l as [|x l IH]; [discriminate|]. cbn [drop_while].
  destruct (f x) eqn:E; [exact IH|]. now intros [= <- <-].
Qed.

Lemma rstrip_cons (a : N) (l : pystr) :
  is_space a = false -> rstrip (a :: l) = a :: rstrip l.
Proof.
  intros Ha. unfold rstrip. cbn [rev].
  rewrite drop_while_snoc by assumption. now rewrite rev_app_distr.
Qed.

Lemma rstrip_idem (l : pystr) : rstrip (rstrip l) = rstrip l.
Proof. unfold rstrip. now rewrite rev_involutive, drop_while_idem. Qed.

(** Stripping twice is stripping once. *)
Lemma strip_idem (s : pystr) : strip (strip s) = strip s.
Proof.
  unfold strip, lstrip.
  destruct (drop_while is_space s) as [|a r] eqn:E; [reflexivity|].
  pose proof (drop_while_head _ _ _ _ E) as Ha.
  rewrite rstrip_cons by assumption. cbn [drop_while]. rewrite Ha.
  rewrite rstrip_cons by assumption. now rewrite rstrip_idem.
Qed.

Lemma ends_sentence_strip (body : pystr) (t : N) :
  (t =? 46) || (t =? 63) = true -> ends_sentence (strip (body ++ [t])) = true.
Proof.
  intros Ht.
  assert (Hsp : is_space t = false).
  { destruct (is_space t) eqn:E; [|reflexivity].
    rewrite (space_not_dot t E), (space_not_question t E) in Ht. discriminate. }
  unfold ends_sentence, strip, rstrip, lstrip.
  rewrite rev_involutive, drop_while_snoc, rev_app_distr by assumption.
  cbn [rev app drop_while]. now rewrite Hsp.
Qed.

(** Every piece before the last ends where the pattern looked behind: on
    a dot or a question mark. Only the first piece can be empty, when the
    text before it ended so. *)
Lemma split_pieces_end_terminal (s before : pystr) :
  match removelast (split_after before s) with
  | [] => True
  | first :: others =>
      after_terminal (rev first ++ before) = true /\
      Forall (fun p => exists body t,
                  p = body ++ [t] /\ (t =? 46) || (t =? 63) = true) others
  end.
Proof.
  revert before. induction s as [|c s IH]; intros before; [exact I|].
  cbn [split_after]. specialize (IH (c :: before)).
  pose proof (split_after_not_nil (c :: before) s) as Hne.
  destruct (sentence_break before c) eqn:B.
  - destruct (split_after (c :: before) s) as [|piece pieces]; [contradiction|].
    change (removelast ([] :: piece :: pieces))
      with ([] :: removelast (piece :: pieces)).
    unfold sentence_break in B.
    apply andb_prop in B as (B & Hc). apply andb_prop in B as (_ & Hterm).
    split; [exact Hterm|].
    destruct (removelast (piece :: pieces)) as [|first others]; [constructor|].
    destruct IH as (Hfirst & Hothers). constructor; [|exact Hothers].
    destruct (rev first) as [|t body] eqn:R.
    + cbn [app after_terminal] in Hfirst.
      rewrite (space_not_dot c Hc), (space_not_question c Hc) in Hfirst.
      discriminate.
    + exists (rev body), t. split; [|exact Hfirst].
      rewrite <- (rev_involutive first), R. reflexivity.
  - destruct (split_after (c :: before) s) as [|piece pieces]; [contradiction|].
    destruct pieces as [|q qs]; [exact I|].
    change (removelast ((c :: piece) :: q :: qs))
      with ((c :: piece) :: removelast (q :: qs)).
    change (removelast (piece :: q :: qs)) with (piece :: removelast (q :: qs)) in IH.
    destruct IH as (Hfirst & Hothers). split; [|exact Hothers].
    cbn [rev]. now rewrite <- app_assoc.
Qed.

(** X2: every sentence a feed yields ends in a dot or a question mark
    and has no whitespace around it; in particular it is never empty. *)
Theorem fed_sentences_are_terminated (partial_sentence data_chunk : pystr) :
  Forall (fun sentence => ends_sentence sentence = true /\ strip sentence = sentence)
         (fst (feed partial_sentence data_chunk)).
Proof.
  unfold feed, re_split_sentences. cbn [fst].
  pose proof (split_pieces_end_terminal (partial_sentence ++ data_chunk) []) as H.
  destruct (removelast (split_after [] (partial_sentence ++ data_chunk)))
    as [|first others]; [constructor|].
  destruct H as (Hfirst & Hothers). rewrite app_nil_r in Hfirst.
  assert (Hall : Forall (fun p => exists body t,
                             p = body ++ [t] /\ (t =? 46) || (t =? 63) = true)
                        (first :: others)).
  { constructor; [|exact Hothers].
    destruct (rev first) as [|t body] eqn:R; [discriminate|].
    exists (rev body), t. split; [|exact Hfirst].
    rewrite <- (rev_involutive first), R. reflexivity. }
  clear Hfirst Hothers. induction Hall as [|p ps (body & t & -> & Ht) _ IH];
    cbn [map]; constructor; try exact IH.
  split; [now apply ends_sentence_strip | apply strip_idem].
Qed.

(** X3: text with no dot and no question mark in it yields nothing; it
    all stays in the buffer. *)
Theorem feed_without_terminal_keeps_buffer (partial_sentence data_chunk : pystr) :
  forallb not_terminal (partial_sentence ++ data_chunk) = true ->
  feed partial_sentence data_chunk = ([], partial_sentence ++ data_chunk).
Proof.
  intros Hno. unfold feed, re_split_sentences.
  assert (H : forall s before,
             after_terminal before = false ->
             forallb not_terminal s = true ->
             split_after before s = [s]).
  { induction s as [|c s IH]; intros before Hb Hs; [reflexivity|].
    cbn [forallb] in Hs. apply andb_prop in Hs as (Hc & Hs).
    cbn [split_after]. unfold sentence_break at 1. rewrite Hb, andb_false_r.
    cbn [andb]. rewrite IH; [reflexivity| |exact Hs].
    unfold not_terminal in Hc. cbn [after_terminal].
    now apply negb_true_iff in Hc. }
  now rewrite H.
Qed.

(** ** Lines the loop passes over, and lines that end it *)

(** X7: a buffer that holds whitespace only is flushed as the empty
    string. *)
Theorem flush_of_spaces_is_empty_sentence (c : N) (partial_sentence : pystr) :
  forallb is_space (c :: partial_sentence) = true ->
  flush (c :: partial_sentence) = [[]].
Proof.
  intros Hall. unfold flush. cbn [nonempty]. f_equal.
  assert (H : forall s, forallb is_space s = true -> drop_while is_space s = []).
  { induction s as [|x s IH]; [reflexivity|]. cbn [forallb drop_while].
    intros Hs. apply andb_prop in Hs as (-> & Hs). now apply IH. }
  unfold strip, lstrip. now rewrite H.
Qed.

(** ** The fetcher and the exceptions its handlers name *)

(** X8: an exception of a class one of the three handlers names never
    leaves [_get_full_response], whatever the remote end does. *)
Theorem named_exceptions_never_escape (api_url_ : pystr)
    (headers_ : list (pystr * pystr)) (payload_ : payload) (w : world) (e : exn) :
  fst (_get_full_response api_url_ headers_ payload_ w) = Raised e ->
  is_RequestException e = false /\
  is_JSONDecodeError e = false /\
  is_KeyError e = false.
Proof.
  unfold _get_full_response, post, full_response_handlers.
  destruct (requests_post _) as [r|e0]; cbn [fst].
  - destruct (bind _ _) as [v|e0]; cbn [fst]; [discriminate|].
    destruct (is_RequestException e0) eqn:E1; [discriminate|].
    destruct (is_JSONDecodeError e0) eqn:E2; [discriminate|].
    destruct (is_KeyError e0) eqn:E3; [discriminate|].
    now intros [= <-].
  - destruct (is_RequestException e0) eqn:E1; [now intros [= <-]|].
    destruct (is_JSONDecodeError e0) eqn:E2; [discriminate|].
    destruct (is_KeyError e0) eqn:E3; [now intros [= <-]|].
    now intros [= <-].
Qed.

(** ** Running [generate] again and again *)

Lemma run_generate_world (a : generate_args) (w : world) :
  conversation_history (snd (run_generate a w))
    = system_message a :: conversation_history w /\
  length (sent (snd (run_generate a w))) = S (length (sent w)).
Proof.
  unfold run_generate, generate, _stream_response, _get_full_response, post,
    insert_system_prompt, system_message.
  destruct (arg_stream a); cbn [conversation_history sent].
  - destruct (requests_post _) as [r|e]; [|destruct (is_JSONDecodeError e)];
      cbn [snd conversation_history sent]; rewrite length_app; cbn [length];
      (split; [reflexivity | lia]).
  - destruct (requests_post _) as [r|e]; [destruct (bind _ _)|];
      cbn [snd conversation_history sent]; rewrite length_app; cbn [length];
      (split; [reflexivity | lia]).
Qed.

(** X9: runs do not undo each other's insertion. After one run per
    element of [calls] on the same list, the list starts with one system
    message per run, the latest first, followed by what was there at the
    start; and one request went out per run. *)
Theorem repeated_runs_stack_system_messages (calls : list generate_args) (w : world) :
  conversation_history (run_calls calls w)
    = rev (map system_message calls) ++ conversation_history w /\
  length (sent (run_calls calls w)) = (length (sent w) + length calls)%nat.
Proof.
  revert w. induction calls as [|a calls IH]; intros w.
  - cbn. split; [reflexivity | lia].
  - cbn [run_calls map rev length].
    destruct (IH (snd (run_generate a w))) as (Hh & Hs).
    destruct (run_generate_world a w) as (Hh1 & Hs1).
    rewrite Hh, Hs, Hh1, Hs1, <- app_assoc. split; [reflexivity | lia].
Qed.

(** ** The marker and the lines that carry text *)

Lemma delete_occurrences_skip (pat p s : pystr) :
  delete_occurrences pat (length p) (p ++ s) = delete_occurrences pat 0 s.
Proof.
  induction p as [|c p IH]; [reflexivity|]. exact IH.
Qed.

Lemma starts_with_self (p s : pystr) : starts_with p (p ++ s) = true.
Proof.
  induction p as [|c p IH]; [reflexivity|].
  cbn [app starts_with]. now rewrite N.eqb_refl.
Qed.

Lemma delete_occurrences_absent (pat s : pystr) :
  contains pat s = false -> delete_occurrences pat 0 s = s.
Proof.
  induction s as [|c s IH]; [reflexivity|].
  cbn [contains delete_occurrences]. intros H.
  apply orb_false_elim in H as (-> & H). now rewrite IH.
Qed.

Lemma marker_prefix_stripped_aux (rest : pystr) :
  contains (str "data:") rest = false ->
  re_sub_delete (str "data:") (str "data:" ++ rest) = rest.
Proof.
  intros H. unfold re_sub_delete.
  change (str "data:" ++ rest) with (100 :: (str "ata:" ++ rest)).
  cbn [delete_occurrences].
  change (100 :: str "ata:" ++ rest) with (str "data:" ++ rest).
  rewrite starts_with_self.
  change (pred (length (str "data:"))) with (length (str "ata:")).
  rewrite delete_occurrences_skip. now apply delete_occurrences_absent.
Qed.

(** X10: the marker at the head of a line is taken off and the rest of
    the line is left as it is, provided the rest does not hold the
    marker; a line without the marker is not changed at all. *)
Theorem marker_prefix_is_stripped (rest : pystr) :
  contains (str "data:") rest = false ->
  re_sub_delete (str "data:") (str "data:" ++ rest) = rest /\
  re_sub_delete (str "data:") rest = rest.
Proof.
  intros H. split; [now apply marker_prefix_stripped_aux|].
  now apply delete_occurrences_absent.
Qed.

Lemma starts_with_before_quote (pat chunk tail : pystr) :
  forallb (fun c => negb (c =? 34)) pat = true ->
  starts_with pat (chunk ++ 34 :: tail) = starts_with pat chunk.
Proof.
  revert chunk. induction pat as [|a pat IH]; intros chunk Hq; [reflexivity|].
  cbn [forallb] in Hq. apply andb_prop in Hq as (Ha & Hq).
  destruct chunk as [|c chunk]; cbn [app starts_with].
  - apply negb_true_iff in Ha. now rewrite Ha.
  - now rewrite IH.
Qed.

Lemma contains_before_quote (pat chunk tail : pystr) :
  forallb (fun c => negb (c =? 34)) pat = true ->
  contains pat (chunk ++ 34 :: tail) = contains pat chunk || contains pat (34 :: tail).
Proof.
  intros Hq. induction chunk as [|c chunk IH].
  - cbn [app]. destruct pat as [|a pat]; [reflexivity|].
    cbn [contains starts_with orb]. reflexivity.
  - cbn [app]. change (contains pat (c :: chunk ++ 34 :: tail))
      with (starts_with pat ((c :: chunk) ++ 34 :: tail)
            || contains pat (chunk ++ 34 :: tail)).
    rewrite starts_with_before_quote, IH by assumption.
    cbn [contains]. now rewrite orb_assoc.
Qed.

Lemma scan_string_plain (chunk rest acc : pystr) :
  plain_text chunk = true ->
  scan_string (chunk ++ 34 :: rest) acc = Some (rev acc ++ chunk, rest).
Proof.
  revert acc. induction chunk as [|c chunk IH]; intros acc Hplain.
  - cbn [app scan_string]. rewrite N.eqb_refl. now rewrite app_nil_r.
  - cbn [plain_text forallb] in Hplain.
    apply andb_prop in Hplain as (Hc & Hplain).
    apply andb_prop in Hc as (Hc & Hbs). apply andb_prop in Hc as (Hctl & Hq).
    apply negb_true_iff in Hq, Hbs.
    cbn [app scan_string]. rewrite Hq, Hbs.
    replace (c <? 32) with false by (symmetry; apply N.ltb_ge; now apply N.leb_le).
    rewrite IH by exact Hplain. cbn [rev]. now rewrite <- app_assoc.
Qed.

(** The body of a content line, once the marker is off, decodes to the
    frame that holds the text. *)
Lemma content_body_decodes (data_chunk : pystr) :
  plain_text data_chunk = true ->
  json_loads (32 :: qstr "{'choices':[{'delta':{'content':'"
                ++ data_chunk ++ qstr "'}}]}")
  = Some (JObj [(str "choices",
                 JArr [JObj [(str "delta",
                              JObj [(str "content", JStr data_chunk)])]])]).
Proof.
  intros Hplain.
  set (line := 32 :: qstr "{'choices':[{'delta':{'content':'"
                  ++ data_chunk ++ qstr "'}}]}").
  rewrite <- (json_loads_fuel_enough line (10 + 2 * length line)) by lia.
  subst line. unfold json_loads_fuel.
  let head := eval vm_compute in (qstr "{'choices':[{'delta':{'content':'") in
  change (qstr "{'choices':[{'delta':{'content':'") with head.
  let tail := eval vm_compute in (qstr "'}}]}") in
  change (qstr "'}}]}") with tail.
  cbn [app skip_ws drop_while is_json_ws N.eqb Pos.eqb orb Nat.add].
  repeat (first
            [ match goal with
              | |- context [parse_value (S ?f) ?x] => rewrite (parse_value_unfold f x)
              | |- context [parse_elements (S ?f) ?x ?acc] =>
                  rewrite (parse_elements_unfold f x acc)
              | |- context [parse_members (S ?f) ?x ?acc] =>
                  rewrite (parse_members_unfold f x acc)
              end
            | rewrite (scan_string_plain data_chunk _ [] Hplain) ];
          cbn [N.eqb Pos.eqb N.ltb N.compare Pos.compare Pos.compare_cont
                 scan_string skip_ws drop_while is_json_ws orb rev app]).
  reflexivity.
Qed.

Lemma contains_between_quotes (pat head chunk tail : pystr) :
  forallb (fun c => negb (c =? 34)) pat = true ->
  pat <> [] ->
  contains pat (head ++ 34 :: chunk ++ 34 :: tail) =
  contains pat head || contains pat chunk || contains pat (34 :: tail).
Proof.
  intros Hq Hne. rewrite contains_before_quote by assumption.
  rewrite <- orb_assoc. f_equal.
  destruct pat as [|a pat]; [contradiction|].
  cbn [forallb] in Hq. apply andb_prop in Hq as (Ha & Hq). apply negb_true_iff in Ha.
  change (contains (a :: pat) (34 :: chunk ++ 34 :: tail))
    with (starts_with (a :: pat) (34 :: chunk ++ 34 :: tail)
          || contains (a :: pat) (chunk ++ 34 :: tail)).
  cbn [starts_with]. rewrite Ha. cbn [andb orb].
  apply contains_before_quote. cbn [forallb]. now rewrite Ha, Hq.
Qed.

Lemma content_line_frame (data_chunk : pystr) :
  deliverable data_chunk -> content_frame (content_line data_chunk) data_chunk.
Proof.
  intros (Hplain & Hmarker & Hdone).
  set (body := 32 :: qstr "{'choices':[{'delta':{'content':'"
                  ++ data_chunk ++ qstr "'}}]}").
  assert (Hshape : body = (32 :: qstr "{'choices':[{'delta':{'content':")
                            ++ 34 :: data_chunk ++ 34 :: qstr "}}]}")
    by reflexivity.
  assert (Hm : contains (str "data:") body = false).
  { rewrite Hshape, contains_between_quotes, Hmarker by (reflexivity || discriminate).
    reflexivity. }
  assert (Hd : contains (str "[DONE]") body = false).
  { rewrite Hshape, contains_between_quotes, Hdone by (reflexivity || discriminate).
    reflexivity. }
  assert (Hmod : re_sub_delete (str "data:") (content_line data_chunk) = body).
  { unfold content_line. fold body. now apply marker_prefix_stripped_aux. }
  unfold content_frame. cbn zeta. rewrite Hmod.
  split; [reflexivity|]. split; [exact Hd|].
  eexists. split; [apply content_body_decodes; exact Hplain|].
  vm_compute. reflexivity.
Qed.

(** ** The run with the console and the limits *)

Lemma feed_env_written (partial_sentence data_chunk : pystr) :
  console (PrintChunk data_chunk) = None ->
  feed_env partial_sentence data_chunk = feed partial_sentence data_chunk.
Proof. intros H. unfold feed_env. now rewrite H. Qed.

Lemma feed_all_env_cons (partial_sentence chunk : pystr) (chunks : list pystr) :
  feed_all_env partial_sentence (chunk :: chunks) =
  (fst (feed_env partial_sentence chunk)
     ++ fst (feed_all_env (snd (feed_env partial_sentence chunk)) chunks),
   snd (feed_all_env (snd (feed_env partial_sentence chunk)) chunks)).
Proof.
  cbn [feed_all_env].
  destruct (feed_env partial_sentence chunk) as [complete partial'].
  cbn [fst snd]. now destruct (feed_all_env partial' chunks).
Qed.

Lemma feed_all_env_app (earlier later : list pystr) (partial_sentence : pystr) :
  feed_all_env partial_sentence (earlier ++ later) =
  (fst (feed_all_env partial_sentence earlier)
     ++ fst (feed_all_env (snd (feed_all_env partial_sentence earlier)) later),
   snd (feed_all_env (snd (feed_all_env partial_sentence earlier)) later)).
Proof.
  revert partial_sentence.
  induction earlier as [|chunk earlier IH]; intros partial_sentence.
  - cbn [app feed_all_env fst snd]. now destruct (feed_all_env partial_sentence later).
  - cbn [app]. rewrite !feed_all_env_cons, IH. cbn [fst snd].
    now rewrite app_assoc.
Qed.

(** The handlers leave alone what was yielded before the [try] block
    was left. *)
Lemma stream_handlers_env_yield_then (response_text : outcome pystr) (vs : list pystr)
    (tried : gen_trace) :
  stream_handlers_env response_text (yield_then vs tried) =
  yield_then vs (stream_handlers_env response_text tried).
Proof.
  destruct tried as [ys [v|e]]; unfold stream_handlers_env, yield_then;
    cbn [finish yielded]; [reflexivity|].
  destruct (is_JSONDecodeError e); [reflexivity|].
  destruct (console (PrintStreamError e)); cbn [finish yielded]; [reflexivity|].
  destruct response_text; cbn [finish yielded]; [|reflexivity].
  now rewrite app_assoc.
Qed.

(** With a console that takes every chunk and a decoder that stays
    within the limits on every line, the run is the one [stream_lines]
    describes. *)
Lemma stream_lines_env_quiet (response_text : outcome pystr) (lines : list pystr) :
  within_limits lines ->
  (forall data_chunk, console (PrintChunk data_chunk) = None) ->
  forall partial_sentence,
    stream_handlers_env response_text (stream_lines_env lines partial_sentence) =
    stream_lines lines partial_sentence.
Proof.
  intros Hlimits Hconsole.
  induction Hlimits as [|value lines Hvalue _ IH]; intros partial_sentence;
    [reflexivity|].
  cbn [stream_lines_env stream_lines].
  destruct (nonempty (re_sub_delete (str "data:") value)
            && negb (contains (str "[DONE]") (re_sub_delete (str "data:") value)));
    [|apply IH].
  unfold json_loads_env. rewrite Hvalue.
  destruct (json_loads (re_sub_delete (str "data:") value)) as [j|]; [|reflexivity].
  destruct (delta_content j) as [[| | |chunk| |]|]; try apply IH.
  rewrite feed_env_written by apply Hconsole.
  destruct (feed partial_sentence chunk) as [complete partial'].
  now rewrite stream_handlers_env_yield_then, IH.
Qed.


Lemma ignorable_frame_step (value : pystr) (rest : list pystr)
    (partial_sentence : pystr) :
  ignorable_frame value ->
  stream_lines_env (value :: rest) partial_sentence =
  stream_lines_env rest partial_sentence.
Proof.
  intros (j & (Hne & Hdone & Hj) & Hnot). cbn zeta in Hne, Hdone, Hj.
  cbn [stream_lines_env]. rewrite Hne, Hdone, Hj. cbn [negb andb].
  destruct (delta_content j) as [[| | |chunk| |]|]; try reflexivity.
  now destruct (Hnot chunk).
Qed.

Lemma stream_end_line_step (value : pystr) (rest : list pystr)
    (partial_sentence : pystr) :
  stream_end_line value = true ->
  stream_lines_env (value :: rest) partial_sentence =
  stream_lines_env rest partial_sentence.
Proof.
  unfold stream_end_line. cbn zeta. intros Hend. cbn [stream_lines_env].
  destruct (nonempty (re_sub_delete (str "data:") value));
    destruct (contains (str "[DONE]") (re_sub_delete (str "data:") value));
    try discriminate Hend; reflexivity.
Qed.

(** Lines that carry text, then a line on which [json.loads] raises: the
    [try] block is left with that exception, after the sentences the
    segmenter completed on the way. *)
Lemma stream_lines_env_raises (earlier later chunks : list pystr)
    (value : pystr) (e : exn) :
  Forall2 content_frame_env earlier chunks ->
  decoded_line value (Raised e) ->
  forall partial_sentence,
    stream_lines_env (earlier ++ value :: later) partial_sentence =
    {| yielded := fst (feed_all_env partial_sentence chunks);
       finish := Raised e |}.
Proof.
  intros Hframes (Hne & Hdone & Hj). cbn zeta in Hne, Hdone, Hj.
  induction Hframes as [|line chunk earlier chunks Hframe _ IH]; intros partial_sentence.
  - cbn [app stream_lines_env feed_all_env fst]. now rewrite Hne, Hdone, Hj.
  - destruct Hframe as (j & (Hne' & Hdone' & Hj') & Hc).
    cbn zeta in Hne', Hdone', Hj'.
    rewrite feed_all_env_cons. cbn [app stream_lines_env fst].
    rewrite Hne', Hdone', Hj', Hc. cbn [negb andb].
    destruct (feed_env partial_sentence chunk) as [complete partial'].
    rewrite IH. reflexivity.
Qed.

(** On lines that all carry text, the loop is the segmenter followed by
    the final flush. *)
Lemma stream_lines_env_content_frames (lines chunks : list pystr) :
  Forall2 content_frame_env lines chunks ->
  forall partial_sentence,
    stream_lines_env lines partial_sentence =
    {| yielded := fst (feed_all_env partial_sentence chunks)
                    ++ flush (snd (feed_all_env partial_sentence chunks));
       finish := Returned JNull |}.
Proof.
  induction 1 as [|value chunk lines chunks Hframe _ IH]; intros partial_sentence.
  - reflexivity.
  - destruct Hframe as (j & (Hne & Hdone & Hj) & Hc).
    cbn zeta in Hne, Hdone, Hj.
    rewrite feed_all_env_cons. cbn [stream_lines_env fst snd].
    rewrite Hne, Hdone, Hj, Hc. cbn [negb andb].
    destruct (feed_env partial_sentence chunk) as [complete partial'].
    rewrite IH. unfold yield_then. cbn [yielded finish fst snd].
    now rewrite app_assoc.
Qed.

(** Splitting goes on from the buffer: when the split of [s] is some
    pieces followed by the split of the buffer [b], more text only
    reaches the buffer. *)
Lemma split_from_buffer (s b t : pystr) (pieces : list pystr) :
  alnum_excludes_spaces ->
  re_split_sentences s = pieces ++ re_split_sentences b ->
  re_split_sentences (s ++ t) = pieces ++ re_split_sentences (b ++ t).
Proof.
  intros Htable Hs.
  assert (Hne : re_split_sentences b <> []) by apply split_after_not_nil.
  rewrite (split_resumes s t Htable), Hs, removelast_app, last_app_nonempty
    by assumption.
  rewrite <- app_assoc. f_equal. symmetry. now apply split_resumes.
Qed.

Lemma split_of_kept_piece (s : pystr) :
  alnum_excludes_spaces ->
  re_split_sentences s =
  removelast (re_split_sentences s)
    ++ re_split_sentences (last (re_split_sentences s) []).
Proof.
  intros Htable. pose proof (split_resumes s [] Htable) as R.
  now rewrite !app_nil_r in R.
Qed.

(** Whatever the console does, what has been yielded is, stripped, a
    run of pieces of the whole text, and the split of the buffer is the
    rest of them. *)
Lemma feed_all_env_pieces (chunks : list pystr) :
  alnum_excludes_spaces ->
  forall s b pieces,
    re_split_sentences s = pieces ++ re_split_sentences b ->
    exists more,
      fst (feed_all_env b chunks) = map strip more /\
      re_split_sentences (s ++ concat chunks)
        = pieces ++ more ++ re_split_sentences (snd (feed_all_env b chunks)).
Proof.
  intros Htable. induction chunks as [|chunk chunks IH]; intros s b pieces Hs.
  - exists []. cbn [feed_all_env fst snd concat map app]. now rewrite app_nil_r.
  - rewrite feed_all_env_cons. cbn [fst snd concat].
    pose proof (split_from_buffer s b chunk pieces Htable Hs) as Hstep.
    unfold feed_env. destruct (console (PrintChunk chunk)) as [e|].
    + cbn [fst snd app].
      destruct (IH (s ++ chunk) (b ++ chunk) pieces Hstep) as (more & Hy & Hsplit).
      exists more. now rewrite app_assoc.
    + unfold feed. cbn [fst snd].
      rewrite (split_of_kept_piece (b ++ chunk) Htable), app_assoc in Hstep.
      destruct (IH (s ++ chunk) _ _ Hstep) as (more & Hy & Hsplit).
      exists (removelast (re_split_sentences (b ++ chunk)) ++ more).
      rewrite map_app, Hy, app_assoc, Hsplit, <- !app_assoc. split; reflexivity.
Qed.

(** X1: cutting the text into chunks does not change the sentences,
    and neither does a console that refuses some of the chunks. What a
    fresh segmenter has yielded after the chunks is, piece by piece and
    stripped, the beginning of the split of the whole text, and the
    split of its buffer is the rest of that split. When the last chunk
    was written, the sentences are the pieces of the whole text but the
    last, stripped, and the buffer is the last piece. *)
Theorem chunking_does_not_matter (chunks : list pystr) :
  alnum_excludes_spaces ->
  (exists pieces,
     fst (feed_all_env [] chunks) = map strip pieces /\
     re_split_sentences (concat chunks)
       = pieces ++ re_split_sentences (snd (feed_all_env [] chunks))) /\
  (forall earlier data_chunk,
     chunks = earlier ++ [data_chunk] ->
     console (PrintChunk data_chunk) = None ->
     feed_all_env [] chunks =
     (map strip (removelast (re_split_sentences (concat chunks))),
      last (re_split_sentences (concat chunks)) [])).
Proof.
  intros Htable. split.
  - destruct (feed_all_env_pieces chunks Htable [] [] [] eq_refl)
      as (more & Hy & Hsplit).
    exists more. split; [exact Hy | exact Hsplit].
  - intros earlier data_chunk -> Hwritten.
    destruct (feed_all_env_pieces earlier Htable [] [] [] eq_refl)
      as (more & Hy & Hsplit).
    cbn [app] in Hsplit.
    pose proof (split_from_buffer _ _ data_chunk _ Htable Hsplit) as Hstep.
    assert (Hne : re_split_sentences (snd (feed_all_env [] earlier) ++ data_chunk) <> [])
      by apply split_after_not_nil.
    rewrite feed_all_env_app, concat_app. cbn [feed_all_env concat].
    rewrite app_nil_r, (feed_env_written _ _ Hwritten).
    unfold feed. cbn [fst snd].
    rewrite Hstep, removelast_app, last_app_nonempty, map_app, Hy, !app_nil_r
      by assumption.
    reflexivity.
Qed.

(** X12: when the chunk was written, the buffer the feed leaves holds
    no place to split: looked at again without new text it is one
    piece. *)
Theorem pending_buffer_has_no_break (partial_sentence data_chunk : pystr) :
  alnum_excludes_spaces ->
  console (PrintChunk data_chunk) = None ->
  re_split_sentences (snd (feed_env partial_sentence data_chunk))
    = [snd (feed_env partial_sentence data_chunk)].
Proof.
  intros Htable Hwritten. rewrite (feed_env_written _ _ Hwritten).
  unfold feed. cbn [snd].
  set (s := partial_sentence ++ data_chunk).
  pose proof (split_of_kept_piece s Htable) as R.
  assert (Hne : re_split_sentences s <> []) by apply split_after_not_nil.
  rewrite (app_removelast_last [] Hne) in R at 1.
  now apply app_inv_head in R.
Qed.


(** X13: lines that carry no text (end lines and frames without
    content, such as the JSON body of an error reply) make the generator
    yield nothing of their own: only the flush of the buffer it started
    with comes out, and the generator ends normally. *)
Theorem lines_without_text_yield_nothing (response_text : outcome pystr)
    (lines : list pystr) (partial_sentence : pystr) :
  Forall (fun value => stream_end_line value = true \/ ignorable_frame value) lines ->
  stream_handlers_env response_text (stream_lines_env lines partial_sentence) =
  {| yielded := if nonempty partial_sentence then [strip partial_sentence] else [];
     finish := Returned JNull |}.
Proof.
  induction 1 as [|value lines Hvalue _ IH]; [reflexivity|].
  destruct Hvalue as [Hend | Hframe].
  - now rewrite stream_end_line_step.
  - now rewrite ignorable_frame_step.
Qed.

(** X6: when a line does not decode after lines that carry text, what
    is yielded is what the segmenter emitted for those lines and nothing
    else: the buffer is not flushed, the later lines are not read, and
    the generator ends normally. *)
Theorem undecodable_line_cuts_stream (response_text : outcome pystr)
    (earlier later chunks : list pystr) (value partial_sentence : pystr) :
  Forall2 content_frame_env earlier chunks ->
  undecodable_line value ->
  stream_handlers_env response_text
    (stream_lines_env (earlier ++ value :: later) partial_sentence) =
  {| yielded := fst (feed_all_env partial_sentence chunks);
     finish := Returned JNull |}.
Proof.
  intros Hframes Hvalue.
  now rewrite (stream_lines_env_raises _ later _ _ _ Hframes Hvalue).
Qed.

(** X5: when the decoder runs into a limit of the interpreter on a line
    (nesting too deep, an integer too long), the exception is no decode
    error and reaches the last handler: after the sentences completed on
    the earlier lines the generator yields [Response content: ] followed
    by the text of the response and ends normally; the buffer is not
    flushed and the later lines are not read. When the [print] of that
    handler raises, or the read of [response.text] after it, that
    exception escapes instead. *)
Theorem decoder_limit_ends_stream_with_report (r : response)
    (earlier later chunks : list pystr) (value : pystr) (f : limit_fault)
    (api_url_ : pystr) (headers_ : list (pystr * pystr)) (payload_ : payload)
    (chunk_size : Z) (w : world) :
  requests_post {| url := api_url_; headers := headers_;
                   json_body := payload_; stream_kw := true |} = PostOk r ->
  iter_lines r = earlier ++ value :: later ->
  Forall2 content_frame_env earlier chunks ->
  faulting_line value f ->
  fst (_stream_response_env api_url_ headers_ payload_ chunk_size w) =
  match console (PrintStreamError (fault_exn f)), streamed_text r with
  | Some e', _ => {| yielded := fst (feed_all_env [] chunks); finish := Raised e' |}
  | None, Raised e' =>
      {| yielded := fst (feed_all_env [] chunks); finish := Raised e' |}
  | None, Returned raw =>
      {| yielded := fst (feed_all_env [] chunks) ++ [str "Response content: " ++ raw];
         finish := Returned JNull |}
  end.
Proof.
  intros Hpost Hlines Hframes Hvalue.
  unfold _stream_response_env, post. rewrite Hpost, Hlines. cbn [fst].
  rewrite (stream_lines_env_raises _ later _ _ _ Hframes Hvalue).
  unfold stream_handlers_env. cbn [finish yielded].
  destruct f; cbn [fault_exn is_JSONDecodeError];
    destruct (console _); destruct (streamed_text r); reflexivity.
Qed.

Lemma content_line_frame_env (data_chunk : pystr) :
  deliverable data_chunk ->
  decoder_limit (re_sub_delete (str "data:") (content_line data_chunk)) = None ->
  content_frame_env (content_line data_chunk) data_chunk.
Proof.
  intros Hchunk Hlimit.
  destruct (content_line_frame data_chunk Hchunk) as (Hne & Hdone & j & Hj & Hc).
  cbn zeta in Hne, Hdone, Hj.
  exists j. split; [|exact Hc].
  unfold decoded_line, json_loads_env. cbn zeta. now rewrite Hlimit, Hj.
Qed.

(** X11: text that needs no escaping and holds neither the marker nor
    the sentinel reaches the segmenter as it was sent: on the lines that
    carry such chunks, as long as the decoder stays within the limits,
    the generator yields what the segmenter emits for the chunks, then
    the flushed buffer, and ends normally. *)
Theorem content_lines_reach_the_segmenter (response_text : outcome pystr)
    (chunks : list pystr) :
  Forall deliverable chunks ->
  within_limits (map content_line chunks) ->
  stream_handlers_env response_text
    (stream_lines_env (map content_line chunks) []) =
  {| yielded := fst (feed_all_env [] chunks)
                  ++ (if nonempty (snd (feed_all_env [] chunks))
                      then [strip (snd (feed_all_env [] chunks))] else []);
     finish := Returned JNull |}.
Proof.
  intros Hall Hlimits.
  rewrite (stream_lines_env_content_frames (map content_line chunks) chunks);
    [reflexivity|].
  unfold within_limits in Hlimits.
  induction Hall as [|chunk chunks Hchunk _ IH]; cbn [map] in *; constructor.
  - apply content_line_frame_env; [exact Hchunk | now inversion Hlimits].
  - apply IH. now inversion Hlimits.
Qed.

End Client.

(** ** Scenarios *)

(** The non-streaming fetcher on the scenario body returns the message
    content. *)
Lemma get_full_response_hi_there (api : pystr) (hs : list (pystr * pystr))
    (pl : payload) (w : world) (lines : list pystr) :
  fst (_get_full_response (server_answers hi_there_body lines) api hs pl w)
  = Returned (JStr (str "Hi there")).
Proof. vm_compute. reflexivity. Qed.

(** C2, on the code: a call of [generate] with [stream=False] hands the
    caller a generator, never a string. Driven to its end against the
    scenario body the generator yields nothing; the text [Hi there] is
    only the value its [StopIteration] carries. *)
Theorem generate_without_stream_returns_generator
    (unicode_alnum : N -> bool) (a : generate_args) (w : world)
    (lines : list pystr) :
  exists body,
    generate unicode_alnum (server_answers hi_there_body lines) (without_stream a)
      = PyGenerator body /\
    fst (body w) = {| yielded := []; finish := Returned (JStr (str "Hi there")) |}.
Proof.
  eexists. split; [reflexivity|].
  vm_compute. reflexivity.
Qed.

(** C3, on the code: the second line does not decode, and the generator
    ends there. Only the sentence completed before that line is yielded;
    the text pending in the buffer and everything the later lines carry
    never come out. *)
Theorem undecodable_line_aborts_stream (unicode_alnum : N -> bool) :
  stream_lines unicode_alnum
    [ qstr "data: {'choices':[{'delta':{'content':'One. Tw'}}]}";
      str "data: {oops";
      qstr "data: {'choices':[{'delta':{'content':'o. Three. '}}]}" ] []
  = {| yielded := [str "One."]; finish := Returned JNull |}.
Proof. vm_compute. reflexivity. Qed.

(** With a response in hand the fetcher reports a failing status, a body
    that does not decode and a missing key as a string that carries the
    raw text. *)
Lemma get_full_response_reports_status (r : response) (api : pystr)
    (hs : list (pystr * pystr)) (pl : payload) (w : world) :
  (400 <=? status_code r) && (status_code r <? 600) = true ->
  fst (_get_full_response (fun _ => PostOk r) api hs pl w)
  = Returned (JStr (str "Response content: " ++ text r)).
Proof.
  intros Hstatus. unfold _get_full_response, post, raise_for_status.
  cbn [fst snd bind]. rewrite Hstatus. reflexivity.
Qed.

Lemma get_full_response_reports_undecodable (r : response) (api : pystr)
    (hs : list (pystr * pystr)) (pl : payload) (w : world) :
  (400 <=? status_code r) && (status_code r <? 600) = false ->
  json_loads (text r) = None ->
  fst (_get_full_response (fun _ => PostOk r) api hs pl w)
  = Returned (JStr (str "Response content: " ++ text r)).
Proof.
  intros Hstatus Hbody. unfold _get_full_response, post, raise_for_status, response_json.
  cbn [fst snd bind]. rewrite Hstatus, Hbody. reflexivity.
Qed.

Lemma get_full_response_reports_missing_key (r : response) (j : json) (api : pystr)
    (hs : list (pystr * pystr)) (pl : payload) (w : world) :
  (400 <=? status_code r) && (status_code r <? 600) = false ->
  json_loads (text r) = Some j ->
  message_content j = Raised KeyError ->
  fst (_get_full_response (fun _ => PostOk r) api hs pl w)
  = Returned (JStr (str "Error parsing response: " ++ text r)).
Proof.
  intros Hstatus Hbody Hkey. unfold _get_full_response, post, raise_for_status, response_json.
  cbn [fst snd bind]. rewrite Hstatus, Hbody. cbn [bind]. rewrite Hkey. reflexivity.
Qed.

(** C4, on the code: when [requests.post] raises before a response
    exists, the handler reads the unbound name [response] and the call
    ends with [UnboundLocalError]; when the body is an object whose
    [choices] list is empty, [IndexError] escapes. No string is returned
    in either case. *)
Theorem get_full_response_faults (api : pystr) (hs : list (pystr * pystr))
    (pl : payload) (w : world) (lines : list pystr) :
  fst (_get_full_response server_unreachable api hs pl w) = Raised UnboundLocalError /\
  fst (_get_full_response (server_answers (qstr "{'choices':[]}") lines) api hs pl w)
    = Raised IndexError.
Proof. split; vm_compute; reflexivity. Qed.

(** C5, as the code has it: neither fragment is split after its
    abbreviation, and neither is split at all, since nothing follows the
    final dot: the feed emits nothing and keeps the whole fragment. The
    sentence ending in [home.] comes out whole at the final flush, or from
    the feed once a whitespace character follows it. *)
Theorem abbreviation_guards_and_final_sentence (unicode_alnum : N -> bool) :
  feed unicode_alnum [] (str "Dr. Smith went home.")
    = ([], str "Dr. Smith went home.") /\
  feed unicode_alnum [] (str "I saw x. That was odd.")
    = ([], str "I saw x. That was odd.") /\
  flush (str "Dr. Smith went home.") = [str "Dr. Smith went home."] /\
  feed unicode_alnum [] (str "Dr. Smith went home. ")
    = ([str "Dr. Smith went home."], []).
Proof. repeat split; vm_compute; reflexivity. Qed.

(** C6: the three scenario lines make the generator yield the one
    sentence [Nice to meet you.] and nothing else, whether the loop is run
    on the lines or the whole of [_stream_response] against a remote end
    that sends them. *)
Theorem nice_to_meet_you_scenario (unicode_alnum : N -> bool) :
  stream_lines unicode_alnum scenario_lines []
    = {| yielded := [str "Nice to meet you."]; finish := Returned JNull |} /\
  forall body api hs pl chunk_size w,
    fst (_stream_response unicode_alnum (server_answers body scenario_lines)
           api hs pl chunk_size w)
    = {| yielded := [str "Nice to meet you."]; finish := Returned JNull |}.
Proof. split; [|intros]; vm_compute; reflexivity. Qed.

(** C8, on the code: the marker is deleted wherever it stands in the
    line, so the one inside the content is lost with the framing one, and
    the sentence that comes out is [ok.], not [data: ok.]. *)
Theorem data_marker_deleted_inside_content (unicode_alnum : N -> bool) :
  re_sub_delete (str "data:")
    (qstr "data: {'choices':[{'delta':{'content':'data: ok. '}}]}")
    = qstr " {'choices':[{'delta':{'content':' ok. '}}]}" /\
  stream_lines unicode_alnum
    [ qstr "data: {'choices':[{'delta':{'content':'data: ok. '}}]}" ] []
    = {| yielded := [str "ok."]; finish := Returned JNull |}.
Proof. split; vm_compute; reflexivity. Qed.

(** ** Where the specification's wording and the code part *)

(** C1 as worded fails on the fragment [ok.  go. x]: the sentences
    [ok.] and [go.] are emitted and [x] is flushed, and no choice of one
    whitespace character per split spells the ten characters of the
    input, because the second space was stripped from the second
    sentence. *)
Lemma exact_reconstruction_fails :
  ~ (forall unicode_alnum : N -> bool,
       let run := feed_all unicode_alnum [] [str "ok.  go. x"] in
       reconstructs_exactly (fst run) (flush (snd run)) (concat [str "ok.  go. x"])).
Proof.
  intros H. destruct (H (fun _ => false)) as (seps & Hlen & _ & Hspell).
  apply (f_equal (@length N)) in Hspell.
  destruct seps as [|w1 [|w2 [|w3 seps]]]; vm_compute in Hlen;
    [discriminate Hlen | discriminate Hlen | | discriminate Hlen].
  vm_compute in Hspell. discriminate Hspell.
Qed.

(** C5 as worded fails on its last part: feeding [Dr. Smith went home.]
    emits no sentence at all. *)
Lemma home_sentence_not_emitted_by_feed :
  ~ (forall unicode_alnum : N -> bool,
       exists sentence,
         In sentence (fst (feed unicode_alnum [] (str "Dr. Smith went home."))) /\
         ends_with (str "home.") sentence = true).
Proof.
  intros H. destruct (H (fun _ => false)) as (sentence & Hin & _).
  vm_compute in Hin. exact Hin.
Qed.

(** C7 as worded fails on an empty line between two content lines: the
    stream does not end at the empty line with [Hi] flushed; the next
    line is read and the one sentence [Hi there.] comes out. *)
Lemma end_marker_does_not_end_stream :
  ~ (forall unicode_alnum : N -> bool,
       stream_lines unicode_alnum
         ([qstr "data: {'choices':[{'delta':{'content':'Hi'}}]}"]
            ++ [] :: [qstr "data: {'choices':[{'delta':{'content':' there. '}}]}"]) []
       = stream_lines unicode_alnum
           [qstr "data: {'choices':[{'delta':{'content':'Hi'}}]}"] []).
Proof.
  intros H. specialize (H (fun _ => false)). vm_compute in H. discriminate.
Qed.

(** The hypothesis of [end_marker_line_is_skipped] holds of the sentinel
    line, and the theorem applies to the scenario with that line in the
    middle, and to that line alone on a buffer that holds [Hi there]. *)
Lemma end_marker_line_is_skipped_witness :
  stream_end_line (str "data: [DONE]") = true /\
  stream_lines (fun _ => false)
    ([qstr "data: {'choices':[{'delta':{'content':'Hi'}}]}"]
       ++ str "data: [DONE]"
       :: [qstr "data: {'choices':[{'delta':{'content':' there. '}}]}"]) []
  = stream_lines (fun _ => false)
      ([qstr "data: {'choices':[{'delta':{'content':'Hi'}}]}"]
         ++ [qstr "data: {'choices':[{'delta':{'content':' there. '}}]}"]) [] /\
  stream_lines (fun _ => false) [str "data: [DONE]"] (str " Hi there")
  = {| yielded := if nonempty (str " Hi there") then [strip (str " Hi there")] else [];
       finish := Returned JNull |}.
Proof.
  split; [vm_compute; reflexivity|]. split.
  - apply (end_marker_line_is_skipped (fun _ => false)). vm_compute. reflexivity.
  - apply (end_marker_line_is_skipped (fun _ => false) [] []).
    vm_compute. reflexivity.
Defined.

(** ** The fetcher, case by case *)

Lemma getitem_key_raises (v : json) (key : pystr) (e : exn) :
  getitem_key v key = Raised e -> e = KeyError \/ e = TypeError.
Proof.
  destruct v; cbn [getitem_key]; try (intros [= <-]; now right).
  destruct (dict_get key members); [discriminate|]. intros [= <-]. now left.
Qed.

Lemma getitem_index_raises (v : json) (i : nat) (e : exn) :
  getitem_index v i = Raised e -> e = KeyError \/ e = IndexError \/ e = TypeError.
Proof.
  destruct v; cbn [getitem_index]; try (intros [= <-]; auto).
  - destruct (nth_error s i); [discriminate|]. intros [= <-]. auto.
  - destruct (nth_error items i); [discriminate|]. intros [= <-]. auto.
Qed.

(** The lookup of the message content fails in three ways only. *)
Lemma message_content_raises (j : json) (e : exn) :
  message_content j = Raised e -> e = KeyError \/ e = IndexError \/ e = TypeError.
Proof.
  unfold message_content, bind.
  destruct (getitem_key j (str "choices")) as [choices|e1] eqn:E1.
  2: { intros [= <-]. apply getitem_key_raises in E1. tauto. }
  destruct (getitem_index choices 0) as [first|e2] eqn:E2.
  2: { intros [= <-]. now apply getitem_index_raises in E2. }
  destruct (getitem_key first (str "message")) as [msg|e3] eqn:E3.
  2: { intros [= <-]. apply getitem_key_raises in E3. tauto. }
  intros H. apply getitem_key_raises in H. tauto.
Qed.

(** X14: what [_get_full_response] does with a response in hand, case
    by case. A 4xx or 5xx status, or a body with an error of syntax,
    gives [Response content: ] followed by the raw text; a missing key
    on the path gives [Error parsing response: ] followed by the raw
    text; in both cases the handler prints first, and when that [print]
    raises its exception escapes instead. A path that is there gives the
    value found, string or not. A body on which the decoder runs into a
    limit of the interpreter, and any other failure of the lookup (an
    empty [choices] list, a value of the wrong kind), escape as the
    exception they are. *)
Theorem fetcher_outcome_table (decoder_limit : pystr -> option limit_fault)
    (console : print_call -> option exn) (r : response) (api_url_ : pystr)
    (headers_ : list (pystr * pystr)) (payload_ : payload) (w : world) :
  fst (_get_full_response_env (fun _ => PostOk r) decoder_limit console
         api_url_ headers_ payload_ w) =
  if (400 <=? status_code r) && (status_code r <? 600)
  then match console (PrintRequestError HTTPError) with
       | Some e' => Raised e'
       | None => Returned (JStr (str "Response content: " ++ text r))
       end
  else match decoder_limit (text r) with
       | Some TooDeep => Raised RecursionError
       | Some TooLong => Raised ValueError
       | None =>
           match json_loads (text r) with
           | None =>
               match console (PrintRequestError RequestsJSONDecodeError) with
               | Some e' => Raised e'
               | None => Returned (JStr (str "Response content: " ++ text r))
               end
           | Some j =>
               match message_content j with
               | Returned v => Returned v
               | Raised KeyError =>
                   match console (PrintKeyError KeyError) with
                   | Some e' => Raised e'
                   | None => Returned (JStr (str "Error parsing response: " ++ text r))
                   end
               | Raised e => Raised e
               end
           end
       end.
Proof.
  unfold _get_full_response_env, post, raise_for_status, response_json_env,
    response_json, full_response_handlers_env, after_print.
  cbn [fst snd bind].
  destruct ((400 <=? status_code r) && (status_code r <? 600)).
  { cbn [bind is_RequestException].
    now destruct (console (PrintRequestError HTTPError)). }
  cbn [bind]. destruct (decoder_limit (text r)) as [[|]|]; [reflexivity..|].
  destruct (json_loads (text r)) as [j|].
  2: { cbn [bind is_RequestException].
       now destruct (console (PrintRequestError RequestsJSONDecodeError)). }
  cbn [bind]. destruct (message_content j) as [v|e] eqn:E; [reflexivity|].
  apply message_content_raises in E. destruct E as [-> | [-> | ->]];
    cbn [is_RequestException is_JSONDecodeError is_KeyError]; [|reflexivity..].
  now destruct (console (PrintKeyError KeyError)).
Qed.

(** X15: when [requests.post] raises anything but a decode error, the
    streaming generator yields nothing, not even the diagnostic string
    its handler was written to yield: reading [response.text] there
    raises [UnboundLocalError], which escapes from the first [next]. The
    system message is in the history by then. *)
Theorem streaming_run_on_transport_failure (unicode_alnum : N -> bool)
    (e : exn) (a : generate_args) (w : world) :
  arg_stream a = true ->
  is_JSONDecodeError e = false ->
  fst (run_generate unicode_alnum (fun _ => PostRaised e) a w)
    = {| yielded := []; finish := Raised UnboundLocalError |} /\
  conversation_history (snd (run_generate unicode_alnum (fun _ => PostRaised e) a w))
    = system_message a :: conversation_history w.
Proof.
  intros Hstream He.
  unfold run_generate, generate, _stream_response, post. rewrite Hstream, He.
  split; reflexivity.
Qed.

(** ** Instances of the hypotheses *)

Lemma feed_without_terminal_keeps_buffer_witness :
  forallb not_terminal (str "Nice to " ++ str "meet") = true /\
  feed (fun _ => false) (str "Nice to ") (str "meet")
  = ([], str "Nice to " ++ str "meet").
Proof.
  split; [vm_compute; reflexivity|].
  apply (feed_without_terminal_keeps_buffer (fun _ => false)).
  vm_compute. reflexivity.
Defined.

Lemma flush_of_spaces_is_empty_sentence_witness :
  forallb is_space (32 :: [10]) = true /\ flush (32 :: [10]) = [[]].
Proof.
  split; [vm_compute; reflexivity|].
  apply flush_of_spaces_is_empty_sentence. vm_compute. reflexivity.
Defined.

Lemma named_exceptions_never_escape_witness :
  fst (_get_full_response server_unreachable api_url request_headers
         {| model := []; messages := []; temperature := 0%float; max_tokens := 0%Z;
            stop := []; stream := true |}
         {| conversation_history := []; sent := [] |})
    = Raised UnboundLocalError /\
  is_RequestException UnboundLocalError = false /\
  is_JSONDecodeError UnboundLocalError = false /\
  is_KeyError UnboundLocalError = false.
Proof.
  split; [vm_compute; reflexivity|].
  apply (named_exceptions_never_escape server_unreachable api_url request_headers
           {| model := []; messages := []; temperature := 0%float; max_tokens := 0%Z;
              stop := []; stream := true |}
           {| conversation_history := []; sent := [] |}).
  vm_compute. reflexivity.
Defined.

Lemma marker_prefix_is_stripped_witness :
  contains (str "data:") (qstr " {'choices':[]}") = false /\
  re_sub_delete (str "data:") (str "data:" ++ qstr " {'choices':[]}")
    = qstr " {'choices':[]}" /\
  re_sub_delete (str "data:") (qstr " {'choices':[]}") = qstr " {'choices':[]}".
Proof.
  split; [vm_compute; reflexivity|].
  apply marker_prefix_is_stripped. vm_compute. reflexivity.
Defined.

Lemma streaming_run_on_transport_failure_witness :
  let a := {| arg_model := []; arg_system_prompt := str "Be brief";
              arg_max_tokens := 512%Z; arg_temperature := 0%float;
              arg_stream := true; arg_chunk_size := 1%Z |} in
  let w := {| conversation_history := []; sent := [] |} in
  arg_stream a = true /\
  is_JSONDecodeError ConnectionError = false /\
  fst (run_generate (fun _ => false) (fun _ => PostRaised ConnectionError) a w)
    = {| yielded := []; finish := Raised UnboundLocalError |} /\
  conversation_history
    (snd (run_generate (fun _ => false) (fun _ => PostRaised ConnectionError) a w))
    = system_message a :: conversation_history w.
Proof.
  cbn zeta. split; [reflexivity|]. split; [reflexivity|].
  apply (streaming_run_on_transport_failure (fun _ => false) ConnectionError);
    reflexivity.
Defined.

Lemma chunking_does_not_matter_witness :
  alnum_excludes_spaces (fun _ => false) /\
  (exists pieces,
     fst (feed_all_env (fun _ => false) utf8_console []
            [str "Go on. "; [55357]; str " Fine. "]) = map strip pieces /\
     re_split_sentences (fun _ => false)
       (concat [str "Go on. "; [55357]; str " Fine. "])
       = pieces ++ re_split_sentences (fun _ => false)
                     (snd (feed_all_env (fun _ => false) utf8_console []
                             [str "Go on. "; [55357]; str " Fine. "]))) /\
  (forall earlier data_chunk,
     [str "Go on. "; [55357]; str " Fine. "] = earlier ++ [data_chunk] ->
     utf8_console (PrintChunk data_chunk) = None ->
     feed_all_env (fun _ => false) utf8_console []
       [str "Go on. "; [55357]; str " Fine. "]
     = (map strip (removelast (re_split_sentences (fun _ => false)
                                 (concat [str "Go on. "; [55357]; str " Fine. "]))),
        last (re_split_sentences (fun _ => false)
                (concat [str "Go on. "; [55357]; str " Fine. "])) [])).
Proof.
  split; [intros c _; reflexivity|].
  apply (chunking_does_not_matter (fun _ => false) utf8_console).
  intros c _. reflexivity.
Defined.

Lemma pending_buffer_has_no_break_witness :
  alnum_excludes_spaces (fun _ => false) /\
  utf8_console (PrintChunk (str "Who")) = None /\
  re_split_sentences (fun _ => false)
    (snd (feed_env (fun _ => false) utf8_console (str "Hi. Dr. ") (str "Who")))
  = [snd (feed_env (fun _ => false) utf8_console (str "Hi. Dr. ") (str "Who"))].
Proof.
  split; [intros c _; reflexivity|]. split; [reflexivity|].
  apply (pending_buffer_has_no_break (fun _ => false) utf8_console);
    [intros c _; reflexivity | reflexivity].
Defined.



Lemma one_two_is_content_frame :
  content_frame_env default_limits
    (qstr "data: {'choices':[{'delta':{'content':'One. Tw'}}]}") (str "One. Tw").
Proof.
  unfold content_frame_env, decoded_line. cbn zeta. eexists. split.
  - split; [vm_compute; reflexivity|]. split; vm_compute; reflexivity.
  - vm_compute. reflexivity.
Defined.

Lemma oops_is_undecodable : undecodable_line default_limits (str "data: {oops").
Proof.
  unfold undecodable_line, decoded_line. cbn zeta.
  split; [vm_compute; reflexivity|]. split; vm_compute; reflexivity.
Defined.

Lemma undecodable_line_cuts_stream_witness :
  Forall2 (content_frame_env default_limits)
    [qstr "data: {'choices':[{'delta':{'content':'One. Tw'}}]}"] [str "One. Tw"] /\
  undecodable_line default_limits (str "data: {oops") /\
  stream_handlers_env utf8_console (Returned (str ""))
    (stream_lines_env (fun _ => false) default_limits utf8_console
       ([qstr "data: {'choices':[{'delta':{'content':'One. Tw'}}]}"]
          ++ str "data: {oops"
          :: [qstr "data: {'choices':[{'delta':{'content':'o. Three. '}}]}"]) [])
  = {| yielded := fst (feed_all_env (fun _ => false) utf8_console [] [str "One. Tw"]);
       finish := Returned JNull |}.
Proof.
  assert (H : Forall2 (content_frame_env default_limits)
                [qstr "data: {'choices':[{'delta':{'content':'One. Tw'}}]}"]
                [str "One. Tw"])
    by (constructor; [exact one_two_is_content_frame | constructor]).
  split; [exact H|]. split; [exact oops_is_undecodable|].
  exact (undecodable_line_cuts_stream (fun _ => false) default_limits utf8_console
           (Returned (str "")) _ _ _ _ [] H oops_is_undecodable).
Defined.

Lemma deep_array_is_faulting :
  faulting_line default_limits (str "data: " ++ nested_array 1100) TooDeep.
Proof.
  unfold faulting_line, decoded_line. cbn zeta.
  split; [vm_compute; reflexivity|]. split; vm_compute; reflexivity.
Defined.

Lemma decoder_limit_ends_stream_with_report_witness :
  let earlier := [qstr "data: {'choices':[{'delta':{'content':'One. Tw'}}]}"] in
  let value := str "data: " ++ nested_array 1100 in
  let later := [qstr "data: {'choices':[{'delta':{'content':'o. Three. '}}]}"] in
  let r := {| status_code := 200; text := str "raw";
              iter_lines := earlier ++ value :: later |} in
  let payload_ := {| model := []; messages := []; temperature := 0%float;
                     max_tokens := 0%Z; stop := []; stream := true |} in
  let w := {| conversation_history := []; sent := [] |} in
  server_answers (str "raw") (earlier ++ value :: later)
    {| url := api_url; headers := request_headers;
       json_body := payload_; stream_kw := true |} = PostOk r /\
  iter_lines r = earlier ++ value :: later /\
  Forall2 (content_frame_env default_limits) earlier [str "One. Tw"] /\
  faulting_line default_limits value TooDeep /\
  fst (_stream_response_env (fun _ => false)
         (server_answers (str "raw") (earlier ++ value :: later))
         default_limits utf8_console text_at_hand
         api_url request_headers payload_ 1000%Z w)
  = match utf8_console (PrintStreamError (fault_exn TooDeep)), text_at_hand r with
    | Some e', _ =>
        {| yielded := fst (feed_all_env (fun _ => false) utf8_console [] [str "One. Tw"]);
           finish := Raised e' |}
    | None, Raised e' =>
        {| yielded := fst (feed_all_env (fun _ => false) utf8_console [] [str "One. Tw"]);
           finish := Raised e' |}
    | None, Returned raw =>
        {| yielded := fst (feed_all_env (fun _ => false) utf8_console [] [str "One. Tw"])
                        ++ [str "Response content: " ++ raw];
           finish := Returned JNull |}
    end.
Proof.
  cbn zeta.
  assert (H : Forall2 (content_frame_env default_limits)
                [qstr "data: {'choices':[{'delta':{'content':'One. Tw'}}]}"]
                [str "One. Tw"])
    by (constructor; [exact one_two_is_content_frame | constructor]).
  split; [reflexivity|]. split; [reflexivity|]. split; [exact H|].
  split; [exact deep_array_is_faulting|].
  apply (decoder_limit_ends_stream_with_report (fun _ => false)
           (server_answers (str "raw") _) default_limits utf8_console text_at_hand
           {| status_code := 200; text := str "raw"; iter_lines := _ |}
           [qstr "data: {'choices':[{'delta':{'content':'One. Tw'}}]}"]
           [qstr "data: {'choices':[{'delta':{'content':'o. Three. '}}]}"]
           [str "One. Tw"] (str "data: " ++ nested_array 1100) TooDeep);
    [reflexivity | reflexivity | exact H | exact deep_array_is_faulting].
Defined.

Lemma nice_to_meet_you_deliverable :
  Forall deliverable [str "Nice to "; str "meet you. "].
Proof.
  repeat constructor; vm_compute; reflexivity.
Defined.

Lemma nice_to_meet_you_within_limits :
  within_limits default_limits (map content_line [str "Nice to "; str "meet you. "]).
Proof.
  repeat constructor; vm_compute; reflexivity.
Defined.

Lemma content_lines_reach_the_segmenter_witness :
  Forall deliverable [str "Nice to "; str "meet you. "] /\
  within_limits default_limits (map content_line [str "Nice to "; str "meet you. "]) /\
  stream_handlers_env utf8_console (Returned (str ""))
    (stream_lines_env (fun _ => false) default_limits utf8_console
       (map content_line [str "Nice to "; str "meet you. "]) [])
  = {| yielded :=
         fst (feed_all_env (fun _ => false) utf8_console []
                [str "Nice to "; str "meet you. "])
           ++ (if nonempty (snd (feed_all_env (fun _ => false) utf8_console []
                                   [str "Nice to "; str "meet you. "]))
               then [strip (snd (feed_all_env (fun _ => false) utf8_console []
                                   [str "Nice to "; str "meet you. "]))]
               else []);
       finish := Returned JNull |}.
Proof.
  split; [exact nice_to_meet_you_deliverable|].
  split; [exact nice_to_meet_you_within_limits|].
  apply (content_lines_reach_the_segmenter (fun _ => false) default_limits utf8_console).
  - exact nice_to_meet_you_deliverable.
  - exact nice_to_meet_you_within_limits.
Defined.

Lemma error_reply_is_ignorable :
  ignorable_frame default_limits (qstr "{'error':{'message':'Model not found'}}").
Proof.
  unfold ignorable_frame, decoded_line. cbn zeta. eexists. split.
  - split; [vm_compute; reflexivity|]. split; vm_compute; reflexivity.
  - intros data_chunk. vm_compute. discriminate.
Defined.

Lemma lines_without_text_yield_nothing_witness :
  Forall (fun value => stream_end_line value = true
                       \/ ignorable_frame default_limits value)
         [qstr "{'error':{'message':'Model not found'}}"; []] /\
  stream_handlers_env utf8_console (Returned (str ""))
    (stream_lines_env (fun _ => false) default_limits utf8_console
       [qstr "{'error':{'message':'Model not found'}}"; []] (str " Hi"))
  = {| yielded := if nonempty (str " Hi") then [strip (str " Hi")] else [];
       finish := Returned JNull |}.
Proof.
  assert (H : Forall (fun value => stream_end_line value = true
                                   \/ ignorable_frame default_limits value)
                [qstr "{'error':{'message':'Model not found'}}"; []]).
  { constructor; [right; exact error_reply_is_ignorable|].
    constructor; [left; reflexivity | constructor]. }
  split; [exact H|].
  exact (lines_without_text_yield_nothing (fun _ => false) default_limits utf8_console
           (Returned (str "")) _ (str " Hi") H).
Defined.
